(** * useAuth: an OAuth2 password-grant session manager (src/src/useAuth.ts)

    The module keeps five module-level variables ([user], [oAuth],
    [refreshTokenTimeout], [isRefreshingToken], [failedRequestsQueue]) and
    exports a factory whose closures ([signIn], [refreshToken], [signOut],
    [revoke], [getUser], [setRefreshTokenTimeout], [processQueue] and the
    axios response interceptor) read and write them.

    The embedding is a state machine over one record [State]: the five
    variables, plus the part of the JavaScript environment the closures act
    on (outstanding [setTimeout] callbacks, the requests handed to axios, the
    [async] functions that are suspended at an [await], the promises that
    were settled, the calls of [onRefreshTokenFailed]).  An [async] function
    is cut at each [await] on an axios promise: the part before it is a
    function of the state, the part after it is selected by an [Awaiter]
    value stored with the in-flight request and runs when the reply event is
    delivered.  Microtasks run to completion between two events, as in the
    browser event loop.

    Numbers are integers ([Z], milliseconds and seconds); a JavaScript object
    used as a dictionary (an axios config, its headers, [extraParams]) is a
    [gmap] keyed by strings.  [Date.now()] gives one reading per turn of the
    event loop.  The [err.config] of an [AxiosError] is the config the
    request was sent with.  [onRefreshTokenFailed] is a notification: it
    returns and does not call back into the closures.  Response bodies have
    the shape their reader expects.  The [watch] on [oAuth] (default
    Authorization header, localStorage) writes nothing the closures read
    back and is not part of the state; [defaultAuthorization] is the header
    value its callback computes.

    Module [Legacy] embeds, the same way, the earlier revision of the module
    kept in src/unnamed/part_000. *)

From Stdlib Require Import ZArith.
From stdpp Require Import base option list gmap strings.

Open Scope Z_scope.

(** ** Data *)

(** [interface OAuth] *)
Module OAuth.
Record t : Type := mk {
  accessToken : string;
  refreshToken : string;
  tokenType : string;
  expiresIn : Z;
  expiresAt : Z;
}.
End OAuth.

(** [enum GrantType] *)
Inductive GrantType : Type := PASSWORD | REFRESH_TOKEN.

Definition grantTypeValue (g : GrantType) : string :=
  match g with
  | PASSWORD => "password"
  | REFRESH_TOKEN => "refresh_token"
  end.

(** [autoRefreshAccessToken?: { preFetchInMs: number } | boolean] *)
Inductive AutoRefresh : Type :=
| AutoBoolean (b : bool)
| AutoObject (preFetchInMs : Z).

(** [endpoints.revoke: string | ((accessToken: string) => string)] *)
Inductive RevokeEndpoint : Type :=
| RevokeLiteral (path : string)
| RevokeFunction (f : string → string).

(** [interface Options].  [onRefreshTokenFailed] is an opaque notification:
    the state counts its invocations; [true] means a callback is configured. *)
Module Options.
Record t : Type := mk {
  clientId : string;
  clientSecret : string;
  baseURL : string;
  userInfo : string;
  revoke : RevokeEndpoint;
  extraParams : option (gmap string string);
  autoRefreshAccessToken : option AutoRefresh;
  onRefreshTokenFailed : bool;
}.
End Options.

(** The values an axios config holds: strings, the [URLSearchParams] body
    (ordered pairs) and the headers object. *)
Inductive Value : Type :=
| VStr (s : string)
| VParams (l : list (string * string))
| VHeaders (h : gmap string string).

(** An axios request config, as the object it is. *)
Abbreviation Config := (gmap string Value).

(** What the interceptor's error handler receives: an [AxiosError] with
    [err.response?.status] and [err.config], or any other thrown value. *)
Inductive Err : Type :=
| AxiosError (status : option Z) (config : option Config)
| OtherError (message : string).

(** The [data] of a token response. *)
Record TokenData : Type := {
  access_token : string;
  refresh_token : string;
  token_type : string;
  expires_in : Z;
}.

Definition tokenEndpoint : string := "/oauth/token".
Definition notLoggedIn : Err := OtherError "Not logged in".
Definition oAuthIsNull : Err :=
  OtherError "Attempted to call `setRefreshTokenTimeout()` when `oAuth` is null".

(** * The earlier revision (src/unnamed/part_000)

    The same module before the queue, the options and the guards were
    added: the refresh window is fixed at 60 seconds, token requests carry a
    JSON body, and the error handler of the interceptor, for every 401 met
    with a session, awaits [refreshToken()] and then returns the replayed
    request, so that the replay's response becomes the result of the
    original call.  It is embedded the same way. *)
Module Legacy.

(** The [data] of a token response: the fields of [interface OAuth] the
    server sends. *)
Module Data.
Record t : Type := mk {
  accessToken : string;
  refreshToken : string;
  tokenType : string;
  expiresIn : Z;
}.
End Data.

(** [interface Options] *)
Module Options.
Record t : Type := mk {
  clientId : string;
  clientSecret : string;
  baseURL : string;
}.
End Options.

(** The values of an axios config: strings, the JSON body (a key may hold
    [undefined]) and the headers object. *)
Inductive Value : Type :=
| VStr (s : string)
| VData (d : gmap string (option string))
| VHeaders (h : gmap string string).

Abbreviation Config := (gmap string Value).

Inductive Err : Type :=
| AxiosError (status : option Z) (config : option Config)
| OtherError (message : string).

Definition notLoggedIn : Err := OtherError "Not logged in".
Definition oAuthIsNull : Err :=
  OtherError "Attempted to call `setRefreshTokenTimeout()` when `oAuth` is null".

Section Defs.

Context {T : Type}.

Inductive Body : Type :=
| TokenBody (data : Data.t)
| UserBody (data : T)
| NoBody.

Inductive Outcome : Type :=
| Resolved (b : Body)
| Rejected (e : Err).

(** What is suspended on the promise of an in-flight request.  The handler
    of the interceptor awaits first [refreshToken()] and then the replay;
    both times it holds the error [err] and the continuation [orig] of the
    failed request. *)
Inductive Awaiter : Type :=
| ASignIn (call : nat)
| AInvalidate (call : nat)
| AGetUser (call : nat)
| ARequest (call : nat)
| ARefresh (k : RefreshCaller)
| AReplay (err : Err) (orig : Awaiter)
with RefreshCaller : Type :=
| FromTimer
| FromInterceptor (err : Err) (orig : Awaiter).

Scheme Awaiter_mut := Induction for Awaiter Sort Prop
  with RefreshCaller_mut := Induction for RefreshCaller Sort Prop.

(** The promise a continuation settles, when it has one. *)
Definition promise (a : Awaiter) : option nat :=
  match a with
  | ASignIn call | AInvalidate call | AGetUser call | ARequest call => Some call
  | ARefresh _ | AReplay _ _ => None
  end.

Record State : Type := mkState {
  user : option T;
  oAuth : option OAuth.t;
  refreshTokenTimeout : option nat;
  timers : list (nat * Z);
  nextTimer : nat;
  sent : list Config;
  inflight : list (nat * Awaiter);
  settled : list (nat * Outcome);
}.

Definition set_user (u : option T) (st : State) : State :=
  mkState u (oAuth st) (refreshTokenTimeout st) (timers st) (nextTimer st)
    (sent st) (inflight st) (settled st).

Definition set_oAuth (o : option OAuth.t) (st : State) : State :=
  mkState (user st) o (refreshTokenTimeout st) (timers st) (nextTimer st)
    (sent st) (inflight st) (settled st).

Definition clearTimeout (id : nat) (st : State) : State :=
  mkState (user st) (oAuth st) (refreshTokenTimeout st)
    (filter (λ t, t.1 ≠ id) (timers st)) (nextTimer st)
    (sent st) (inflight st) (settled st).

Definition setTimeout (delay : Z) (st : State) : State :=
  mkState (user st) (oAuth st) (Some (nextTimer st))
    (timers st ++ [(nextTimer st, delay)]) (S (nextTimer st))
    (sent st) (inflight st) (settled st).

Definition send (cfg : Config) (a : Awaiter) (st : State) : State :=
  mkState (user st) (oAuth st) (refreshTokenTimeout st) (timers st)
    (nextTimer st) (sent st ++ [cfg])
    (inflight st ++ [(length (sent st), a)]) (settled st).

Definition settle (call : nat) (o : Outcome) (st : State) : State :=
  mkState (user st) (oAuth st) (refreshTokenTimeout st) (timers st)
    (nextTimer st) (sent st) (inflight st) (settled st ++ [(call, o)]).

(** [const isAuthenticated = computed(() => user.value !== null)] *)
Definition isAuthenticated (st : State) : bool :=
  match user st with
  | Some _ => true
  | None => false
  end.

Variable options : Options.t.

(** [{ url: '/oauth/token', method: 'POST', data, baseURL }] *)
Definition tokenRequest (data : gmap string (option string)) : Config :=
  <["baseURL" := VStr (Options.baseURL options)]>
  (<["data" := VData data]>
  (<["method" := VStr "POST"]>
  {["url" := VStr "/oauth/token"]})).

Definition passwordGrant (email password : string) : Config :=
  tokenRequest
    (<["clientSecret" := Some (Options.clientSecret options)]>
    (<["clientId" := Some (Options.clientId options)]>
    (<["grantType" := Some "password"]>
    (<["username" := Some email]>
    {["password" := Some password]})))).

(** [refreshToken: oAuth.value?.refreshToken] *)
Definition refreshGrant (o : option OAuth.t) : Config :=
  tokenRequest
    (<["refreshToken" := OAuth.refreshToken <$> o]>
    (<["clientSecret" := Some (Options.clientSecret options)]>
    (<["clientId" := Some (Options.clientId options)]>
    {["grantType" := Some "refresh_token"]}))).

(** [{ ...data, expiresAt: Date.now() + data.expiresIn * 1000 }] *)
Definition tokenBundle (now : Z) (data : Data.t) : OAuth.t :=
  OAuth.mk (Data.accessToken data) (Data.refreshToken data)
    (Data.tokenType data) (Data.expiresIn data)
    (now + Data.expiresIn data * 1000).

(** [refreshToken], up to its [await]: there is no guard. *)
Definition refreshToken (k : RefreshCaller) (st : State) : State :=
  send (refreshGrant (oAuth st)) (ARefresh k) st.

Definition setRefreshTokenTimeout (now : Z) (st : State) : State * option Err :=
  let st1 :=
    match refreshTokenTimeout st with
    | Some id => clearTimeout id st
    | None => st
    end in
  match oAuth st1 with
  | None => (st1, Some oAuthIsNull)
  | Some o =>
      let timeoutMs := OAuth.expiresAt o - now - 60 * 1000 in
      if 0 <? timeoutMs
      then (setTimeout timeoutMs st1, None)
      else (refreshToken FromTimer st1, None)
  end.

Definition signIn (call : nat) (email password : string) (st : State) : State :=
  send (passwordGrant email password) (ASignIn call) st.

(** [oAuth.value = { ... }; setRefreshTokenTimeout()] *)
Definition storeToken (now : Z) (data : Data.t) (st : State)
  : State * option Err :=
  setRefreshTokenTimeout now (set_oAuth (Some (tokenBundle now data)) st).

(** [`/oauth/invalidate?token=${oAuth.value?.accessToken as string}`] *)
Definition invalidateUrl (o : option OAuth.t) : string :=
  "/oauth/invalidate?token=" +:+
  match o with
  | Some o => OAuth.accessToken o
  | None => "undefined"
  end.

Definition invalidateToken (call : nat) (st : State) : State :=
  send (<["baseURL" := VStr (Options.baseURL options)]>
        {["url" := VStr (invalidateUrl (oAuth st))]})
    (AInvalidate call) st.

Definition signOut (st : State) : State :=
  let st1 := set_user None (set_oAuth None st) in
  match refreshTokenTimeout st1 with
  | Some id => clearTimeout id st1
  | None => st1
  end.

(** [getUser], up to its [await]; [axios.get('/users/me')]. *)
Definition getUser (call : nat) (st : State) : State * option Err :=
  match oAuth st with
  | None => (st, Some notLoggedIn)
  | Some _ =>
      (send (<["url" := VStr "/users/me"]> {["method" := VStr "get"]})
         (AGetUser call) st, None)
  end.

(** [{ ...e.config, headers: { Authorization: `Bearer ${accessToken}` } }] *)
Definition errConfig (err : Err) : option Config :=
  match err with
  | AxiosError _ config => config
  | OtherError _ => None
  end.

Definition retry (err : Err) (accessToken : string) : Config :=
  <["headers" := VHeaders {["Authorization" := "Bearer " +:+ accessToken]}]>
  (default ∅ (errConfig err)).

(** The guard of the handler:
    [e instanceof AxiosError && status === 401 && oAuth.value !== null]. *)
Definition intercepts (err : Err) (st : State) : bool :=
  match err, oAuth st with
  | AxiosError (Some status) _, Some _ => status =? 401
  | _, _ => false
  end.

(** [rejected a err]: the promise [a] awaits is rejected with [err].  The
    handler of the interceptor catches it ([oAuth.value = null]) and rejects
    the original call with the error it holds. *)
Fixpoint rejected (a : Awaiter) (err : Err) (st : State) : State :=
  match a with
  | ASignIn call | AInvalidate call | AGetUser call | ARequest call =>
      settle call (Rejected err) st
  | ARefresh k =>
      match k with
      | FromTimer => st
      | FromInterceptor e orig => rejected orig e (set_oAuth None st)
      end
  | AReplay e orig => rejected orig e (set_oAuth None st)
  end.

(** The promise of [refreshToken()] is resolved: the handler reads
    [oAuth.value.accessToken] (a [TypeError] when [oAuth] is null, caught
    like any other error) and awaits the replay. *)
Definition refreshed (k : RefreshCaller) (st : State) : State :=
  match k with
  | FromTimer => st
  | FromInterceptor e orig =>
      match oAuth st with
      | Some o => send (retry e (OAuth.accessToken o)) (AReplay e orig) st
      | None => rejected orig e (set_oAuth None st)
      end
  end.

(** The error handler of the interceptor. *)
Definition onRejected (a : Awaiter) (err : Err) (st : State) : State :=
  if intercepts err st
  then refreshToken (FromInterceptor err a) st
  else rejected a err st.

(** The continuation goes on with the response; the handler that awaited a
    replay returns it to the original continuation.  [None]: the body has
    not the shape the continuation reads. *)
Fixpoint fulfilled (now : Z) (a : Awaiter) (b : Body) (st : State)
  : option State :=
  match a with
  | ASignIn call =>
      match b with
      | TokenBody data =>
          let '(st1, thrown) := storeToken now data st in
          Some (settle call
                  (match thrown with
                   | None => Resolved NoBody
                   | Some e => Rejected e
                   end) st1)
      | _ => None
      end
  | ARefresh k =>
      match b with
      | TokenBody data =>
          let '(st1, thrown) := storeToken now data st in
          Some (match thrown with
                | None => refreshed k st1
                | Some e => rejected (ARefresh k) e st1
                end)
      | _ => None
      end
  | AInvalidate call => Some (settle call (Resolved NoBody) st)
  | AGetUser call =>
      match b with
      | UserBody data =>
          Some (settle call (Resolved (UserBody data))
                  (set_user (Some data) st))
      | _ => None
      end
  | ARequest call => Some (settle call (Resolved b) st)
  | AReplay _ orig => fulfilled now orig b st
  end.

Inductive Reply : Type :=
| Fulfilled (b : Body)
| Failed (status : option Z)
| Thrown (message : string).

Inductive Event : Type :=
| CallSignIn (call : nat) (email password : string)
| CallSignOut
| CallInvalidateToken (call : nat)
| CallGetUser (call : nat)
| CallRequest (call : nat) (cfg : Config)
| TimerFires (id : nat)
| Response (req : nat) (r : Reply).

Fixpoint findAwaiter (req : nat) (l : list (nat * Awaiter)) : option Awaiter :=
  match l with
  | [] => None
  | (id, a) :: l' => if Nat.eqb id req then Some a else findAwaiter req l'
  end.

Definition lookupInflight (req : nat) (st : State) : option Awaiter :=
  findAwaiter req (inflight st).

Definition removeInflight (req : nat) (st : State) : State :=
  mkState (user st) (oAuth st) (refreshTokenTimeout st) (timers st)
    (nextTimer st) (sent st)
    (filter (λ p, p.1 ≠ req) (inflight st)) (settled st).

Definition settleThrown (call : nat) (r : State * option Err) : State :=
  match r with
  | (st, Some e) => settle call (Rejected e) st
  | (st, None) => st
  end.

Definition step (now : Z) (ev : Event) (st : State) : option State :=
  match ev with
  | CallSignIn call email password => Some (signIn call email password st)
  | CallSignOut => Some (signOut st)
  | CallInvalidateToken call => Some (invalidateToken call st)
  | CallGetUser call => Some (settleThrown call (getUser call st))
  | CallRequest call cfg => Some (send cfg (ARequest call) st)
  | TimerFires id =>
      if bool_decide (id ∈ (timers st).*1)
      then Some (refreshToken FromTimer (clearTimeout id st))
      else None
  | Response req r =>
      match lookupInflight req st, sent st !! req with
      | Some a, Some cfg =>
          let st1 := removeInflight req st in
          match r with
          | Fulfilled b => fulfilled now a b st1
          | Failed status => Some (onRejected a (AxiosError status (Some cfg)) st1)
          | Thrown message => Some (onRejected a (OtherError message) st1)
          end
      | _, _ => None
      end
  end.

(** The module initialisers, then
    [if (oAuth.value !== null) setRefreshTokenTimeout()]. *)
Definition initial (stored : option OAuth.t) : State :=
  mkState None stored None [] 0%nat [] [] [].

Definition useAuth (now : Z) (stored : option OAuth.t) : State :=
  match stored with
  | Some _ => fst (setRefreshTokenTimeout now (initial stored))
  | None => initial stored
  end.

Fixpoint run (evs : list (Z * Event)) (st : State) : option State :=
  match evs with
  | [] => Some st
  | (now, ev) :: evs' =>
      match step now ev st with
      | Some st' => run evs' st'
      | None => None
      end
  end.

End Defs.

(** Sample data and states of the earlier revision: a restored session with
    a [getUser] call and a request of the application in flight, the same
    after the [getUser] request got a 401, and after the token response. *)
Definition sampleOptions : Options.t :=
  Options.mk "web" "s3cret" "https://api.example.org".

Definition sampleBundle : OAuth.t :=
  OAuth.mk "access-0" "refresh-0" "Bearer" 3600 3600000.

Definition sampleData : Data.t := Data.mk "access-1" "refresh-1" "Bearer" 3600.

Definition sampleRequest : Config :=
  <["headers" := VHeaders {["X-Trace" := "7"]}]>
  {["url" := VStr "/api/items"]}.

Definition userRequest : Config :=
  <["url" := VStr "/users/me"]> {["method" := VStr "get"]}.

Definition twoRequests : @State unit :=
  send sampleRequest (ARequest 2)
    (send userRequest (AGetUser 1) (useAuth sampleOptions 0 (Some sampleBundle))).

Definition refreshing : @State unit :=
  onRejected sampleOptions (AGetUser 1)
    (AxiosError (Some 401) (Some userRequest)) (removeInflight 0 twoRequests).

Definition replaying : @State unit :=
  refreshed (FromInterceptor (AxiosError (Some 401) (Some userRequest))
               (AGetUser 1))
    (fst (storeToken sampleOptions 50 sampleData (removeInflight 2 refreshing))).

End Legacy.

(** Sample data for the closed examples. *)
Definition sampleOptions : Options.t :=
  Options.mk "web" "s3cret" "https://api.example.org" "/users/me"
    (RevokeLiteral "/oauth/revoke") None (Some (AutoBoolean true)) true.

Definition manualOptions : Options.t :=
  Options.mk "web" "s3cret" "https://api.example.org" "/users/me"
    (RevokeFunction (λ accessToken, "/oauth/revoke/" +:+ accessToken))
    None None false.

Definition sampleToken : TokenData :=
  {| access_token := "access-1"; refresh_token := "refresh-1";
     token_type := "Bearer"; expires_in := 3600 |}.

Definition sampleToken2 : TokenData :=
  {| access_token := "access-2"; refresh_token := "refresh-2";
     token_type := "Bearer"; expires_in := 3600 |}.

Definition sampleBundle : OAuth.t :=
  OAuth.mk "access-0" "refresh-0" "Bearer" 3600 3600000.

Definition sampleRequestA : Config := {["url" := VStr "/api/items"]}.
Definition sampleRequestB : Config := {["url" := VStr "/api/orders"]}.

Section UseAuth.

(** The caller-defined shape of the user object. *)
Context {T : Type}.

(** A response body: a token response, the user-info resource, or anything
    else. *)
Inductive Body : Type :=
| TokenBody (data : TokenData)
| UserBody (data : T)
| NoBody.

(** How a promise handed to a caller was settled. *)
Inductive Outcome : Type :=
| Resolved (b : Body)
| Rejected (e : Err).

(** What is suspended on the promise of an in-flight request.  The error
    handler of the interceptor sits between axios and that continuation:
    when it awaits [refreshToken()], the continuation it will reject later
    ([orig]) and the error it holds travel with the refresh request. *)
Inductive Awaiter : Type :=
| ASignIn (call : nat)
| ARevoke (call : nat)
| AGetUser (call : nat)
| ARequest (call : nat)            (* a request of the application *)
| AReplay                          (* issued by [processQueue], result dropped *)
| ARefresh (k : RefreshCaller)
with RefreshCaller : Type :=
| FromTimer                        (* [setRefreshTokenTimeout]: not awaited *)
| FromInterceptor (err : Err) (orig : Awaiter).

Record State : Type := mkState {
  (* module-level variables *)
  user : option T;
  oAuth : option OAuth.t;
  refreshTokenTimeout : option nat;
  isRefreshingToken : bool;
  failedRequestsQueue : list (string → Config);
  (* environment *)
  timers : list (nat * Z);          (* outstanding timeouts: handle, delay *)
  nextTimer : nat;
  sent : list Config;               (* requests handed to axios, in order *)
  inflight : list (nat * Awaiter);  (* index in [sent], continuation *)
  refreshFailedCalls : nat;         (* invocations of [onRefreshTokenFailed] *)
  settled : list (nat * Outcome);   (* promises settled, in order *)
}.

Definition set_user (u : option T) (st : State) : State :=
  mkState u (oAuth st) (refreshTokenTimeout st) (isRefreshingToken st)
    (failedRequestsQueue st) (timers st) (nextTimer st) (sent st)
    (inflight st) (refreshFailedCalls st) (settled st).

Definition set_oAuth (o : option OAuth.t) (st : State) : State :=
  mkState (user st) o (refreshTokenTimeout st) (isRefreshingToken st)
    (failedRequestsQueue st) (timers st) (nextTimer st) (sent st)
    (inflight st) (refreshFailedCalls st) (settled st).

Definition set_isRefreshingToken (b : bool) (st : State) : State :=
  mkState (user st) (oAuth st) (refreshTokenTimeout st) b
    (failedRequestsQueue st) (timers st) (nextTimer st) (sent st)
    (inflight st) (refreshFailedCalls st) (settled st).

Definition set_failedRequestsQueue (q : list (string → Config)) (st : State)
  : State :=
  mkState (user st) (oAuth st) (refreshTokenTimeout st) (isRefreshingToken st)
    q (timers st) (nextTimer st) (sent st)
    (inflight st) (refreshFailedCalls st) (settled st).

Definition set_inflight (l : list (nat * Awaiter)) (st : State) : State :=
  mkState (user st) (oAuth st) (refreshTokenTimeout st) (isRefreshingToken st)
    (failedRequestsQueue st) (timers st) (nextTimer st) (sent st)
    l (refreshFailedCalls st) (settled st).

(** ** The environment *)

(** [clearTimeout(id)]: the callback, if still outstanding, is dropped. *)
Definition clearTimeout (id : nat) (st : State) : State :=
  mkState (user st) (oAuth st) (refreshTokenTimeout st) (isRefreshingToken st)
    (failedRequestsQueue st)
    (filter (λ t, t.1 ≠ id) (timers st)) (nextTimer st) (sent st)
    (inflight st) (refreshFailedCalls st) (settled st).

(** A timeout fires: it is one-shot and no longer outstanding. *)
Definition expire (id : nat) (st : State) : State := clearTimeout id st.

(** [refreshTokenTimeout = setTimeout(() => refreshToken(), delay)] *)
Definition setTimeout (delay : Z) (st : State) : State :=
  mkState (user st) (oAuth st) (Some (nextTimer st)) (isRefreshingToken st)
    (failedRequestsQueue st)
    (timers st ++ [(nextTimer st, delay)]) (S (nextTimer st)) (sent st)
    (inflight st) (refreshFailedCalls st) (settled st).

(** A request is handed to axios; [a] awaits its promise. *)
Definition send (cfg : Config) (a : Awaiter) (st : State) : State :=
  mkState (user st) (oAuth st) (refreshTokenTimeout st) (isRefreshingToken st)
    (failedRequestsQueue st) (timers st) (nextTimer st) (sent st ++ [cfg])
    (inflight st ++ [(length (sent st), a)])
    (refreshFailedCalls st) (settled st).

(** The promise of call [call] is settled. *)
Definition settle (call : nat) (o : Outcome) (st : State) : State :=
  mkState (user st) (oAuth st) (refreshTokenTimeout st) (isRefreshingToken st)
    (failedRequestsQueue st) (timers st) (nextTimer st) (sent st)
    (inflight st) (refreshFailedCalls st) (settled st ++ [(call, o)]).

(** [onRefreshTokenFailed?.()] *)
Definition notifyRefreshFailed (configured : bool) (st : State) : State :=
  mkState (user st) (oAuth st) (refreshTokenTimeout st) (isRefreshingToken st)
    (failedRequestsQueue st) (timers st) (nextTimer st) (sent st)
    (inflight st)
    (if configured then S (refreshFailedCalls st) else refreshFailedCalls st)
    (settled st).

(** [const isAuthenticated = computed(() => user.value !== null)] *)
Definition isAuthenticated (st : State) : bool :=
  match user st with
  | Some _ => true
  | None => false
  end.

(** ** The closures of the factory *)

Variable options : Options.t.

Definition shouldRefreshToken : bool :=
  match Options.autoRefreshAccessToken options with
  | Some (AutoBoolean true) => true
  | Some (AutoObject _) => true
  | _ => false
  end.

Definition refreshTokenTimeoutInMs : Z :=
  match Options.autoRefreshAccessToken options with
  | Some (AutoObject preFetchInMs) => preFetchInMs
  | _ => 60 * 1000
  end.

(** The config of a token request:
    [{ ...(extraParams ?? {}), url, method, data, headers, baseURL }]. *)
Definition tokenRequest (params : list (string * string)) : Config :=
  <["baseURL" := VStr (Options.baseURL options)]>
  (<["headers" := VHeaders
       {["Content-Type" := "application/x-www-form-urlencoded"]}]>
  (<["data" := VParams params]>
  (<["method" := VStr "POST"]>
  (<["url" := VStr tokenEndpoint]>
  (VStr <$> default ∅ (Options.extraParams options)))))).

Definition passwordGrant (email password : string) : Config :=
  tokenRequest
    [("password", password);
     ("username", email);
     ("grant_type", grantTypeValue PASSWORD);
     ("client_id", Options.clientId options);
     ("client_secret", Options.clientSecret options)].

Definition refreshGrant (o : OAuth.t) : Config :=
  tokenRequest
    [("grant_type", grantTypeValue REFRESH_TOKEN);
     ("client_id", Options.clientId options);
     ("client_secret", Options.clientSecret options);
     ("refresh_token", OAuth.refreshToken o)].

(** The object literal both [signIn] and [refreshToken] assign to
    [oAuth.value]; all five fields are overwritten, so the spread of the old
    value contributes nothing. *)
Definition tokenBundle (now : Z) (data : TokenData) : OAuth.t :=
  OAuth.mk (access_token data) (refresh_token data) (token_type data)
    (expires_in data) (now + expires_in data * 1000).

(** [refreshToken], up to its [await]: [Some e] is the synchronous throw
    (the promise is rejected with [e]), [None] means the request is in flight
    and [k] will be resumed by its reply. *)
Definition refreshToken (k : RefreshCaller) (st : State) : State * option Err :=
  match oAuth st with
  | None => (st, Some notLoggedIn)
  | Some o => (send (refreshGrant o) (ARefresh k) st, None)
  end.

(** [setRefreshTokenTimeout]; [Some e] is the thrown error. *)
Definition setRefreshTokenTimeout (now : Z) (st : State) : State * option Err :=
  let st1 :=
    match refreshTokenTimeout st with
    | Some id => clearTimeout id st
    | None => st
    end in
  match oAuth st1 with
  | None => (st1, Some oAuthIsNull)
  | Some o =>
      let timeoutInMs := OAuth.expiresAt o - now - refreshTokenTimeoutInMs in
      if 0 <? timeoutInMs
      then (setTimeout timeoutInMs st1, None)
      else (fst (refreshToken FromTimer st1), None)
  end.

(** [signIn], up to its [await]. *)
Definition signIn (call : nat) (email password : string) (st : State) : State :=
  send (passwordGrant email password) (ASignIn call) st.

(** The statements [signIn] and [refreshToken] share after a successful
    reply: [oAuth.value = { ... }; if (shouldRefreshToken)
    setRefreshTokenTimeout()]. *)
Definition storeToken (now : Z) (data : TokenData) (st : State)
  : State * option Err :=
  let st1 := set_oAuth (Some (tokenBundle now data)) st in
  if shouldRefreshToken then setRefreshTokenTimeout now st1 else (st1, None).

(** The [catch] block of [refreshToken]. *)
Definition refreshFailed (st : State) : State :=
  notifyRefreshFailed (Options.onRefreshTokenFailed options)
    (set_oAuth None st).

Definition signOut (st : State) : State :=
  let st1 := set_user None (set_oAuth None st) in
  match refreshTokenTimeout st1 with
  | Some id => clearTimeout id st1
  | None => st1
  end.

(** [revoke], up to its [await]; [axios.post(endpoint)]. *)
Definition revoke (call : nat) (st : State) : State * option Err :=
  match oAuth st with
  | None => (st, Some notLoggedIn)
  | Some o =>
      let endpoint :=
        match Options.revoke options with
        | RevokeFunction f => f (OAuth.accessToken o)
        | RevokeLiteral path => path
        end in
      (send (<["url" := VStr endpoint]> {["method" := VStr "post"]})
         (ARevoke call) st, None)
  end.

(** [getUser], up to its [await]; [axios.get(endpoints.userInfo, { baseURL })]. *)
Definition getUser (call : nat) (st : State) : State * option Err :=
  match oAuth st with
  | None => (st, Some notLoggedIn)
  | Some _ =>
      (send (<["url" := VStr (Options.userInfo options)]>
             (<["method" := VStr "get"]>
              {["baseURL" := VStr (Options.baseURL options)]}))
         (AGetUser call) st, None)
  end.

(** [processQueue]: every queued closure is called with the access token,
    in order; each call hands one request to axios and nobody awaits it. *)
Definition processQueue (accessToken : string) (st : State) : State :=
  foldl (λ s request, send (request accessToken) AReplay s) st
    (failedRequestsQueue st).

(** The closure the interceptor pushes:
    [(accessToken) => axios.request({ ...err.config,
       headers: { ...originalHeaders, Authorization: `Bearer ${accessToken}` } })] *)
Definition errConfig (err : Err) : option Config :=
  match err with
  | AxiosError _ config => config
  | OtherError _ => None
  end.

Definition originalHeaders (err : Err) : gmap string string :=
  match errConfig err with
  | Some cfg =>
      match cfg !! "headers" with
      | Some (VHeaders h) => h
      | _ => ∅
      end
  | None => ∅
  end.

Definition retry (err : Err) : string → Config :=
  λ accessToken,
    <["headers" := VHeaders
        (<["Authorization" := "Bearer " +:+ accessToken]> (originalHeaders err))]>
    (default ∅ (errConfig err)).

(** The guard of the error handler: [false] when the handler rejects at once,
    that is when [!(err instanceof AxiosError)] or
    [status !== 401 || oAuth.value === null || url === '/oauth/token']. *)
Definition errStatus (err : Err) : option Z :=
  match err with
  | AxiosError status _ => status
  | OtherError _ => None
  end.

Definition errUrl (err : Err) : option Value :=
  match errConfig err with
  | Some cfg => cfg !! "url"
  | None => None
  end.

Definition statusIs401 (err : Err) : bool :=
  match errStatus err with
  | Some status => status =? 401
  | None => false
  end.

Definition urlIsTokenEndpoint (err : Err) : bool :=
  match errUrl err with
  | Some (VStr url) => String.eqb url tokenEndpoint
  | _ => false
  end.

Definition oAuthIsNone (st : State) : bool :=
  match oAuth st with
  | None => true
  | Some _ => false
  end.

Definition refreshable (err : Err) (st : State) : bool :=
  match err with
  | OtherError _ => false
  | AxiosError _ _ =>
      negb (negb (statusIs401 err) || oAuthIsNone st || urlIsTokenEndpoint err)
  end.

(** The lines of the handler after [await refreshToken()] returns or throws:
    [failedRequestsQueue = []; isRefreshingToken = false]. *)
Definition clearQueue (st : State) : State :=
  set_isRefreshingToken false (set_failedRequestsQueue [] st).

(** [rejected a err]: the promise [a] awaits is rejected with [err].
    [refreshTokenSettled k]: the promise of [refreshToken()] is resolved and
    its caller [k] goes on; for the interceptor that is
    [await processQueue(oAuth.value.accessToken)] (a [TypeError] when [oAuth]
    is null, swallowed by [catch {}]), the two assignments, and
    [return await Promise.reject(err)]. *)
Fixpoint rejected (a : Awaiter) (err : Err) (st : State) : State :=
  match a with
  | ASignIn call | ARevoke call | AGetUser call | ARequest call =>
      settle call (Rejected err) st
  | AReplay => st
  | ARefresh k => refreshTokenSettled k (refreshFailed st)
  end
with refreshTokenSettled (k : RefreshCaller) (st : State) : State :=
  match k with
  | FromTimer => st
  | FromInterceptor err orig =>
      let st1 :=
        match oAuth st with
        | Some o => processQueue (OAuth.accessToken o) st
        | None => st
        end in
      rejected orig err (clearQueue st1)
  end.

(** The error handler of the interceptor, run with the continuation [a] that
    awaits the request. *)
Definition onRejected (a : Awaiter) (err : Err) (st : State) : State :=
  if refreshable err st then
    let st1 :=
      set_failedRequestsQueue (failedRequestsQueue st ++ [retry err]) st in
    if isRefreshingToken st1 then rejected a err st1
    else
      match refreshToken (FromInterceptor err a)
              (set_isRefreshingToken true st1) with
      | (st2, None) => st2
      | (st2, Some _) => rejected a err (clearQueue st2)
      end
  else rejected a err st.

(** The success handler of the interceptor is the identity: the continuation
    goes on with the response.  [None]: the body has not the shape the
    continuation reads. *)
Definition fulfilled (now : Z) (a : Awaiter) (b : Body) (st : State)
  : option State :=
  match a, b with
  | ASignIn call, TokenBody data =>
      let '(st1, thrown) := storeToken now data st in
      Some (settle call
              (match thrown with
               | None => Resolved NoBody
               | Some e => Rejected e
               end) st1)
  | ARefresh k, TokenBody data =>
      let '(st1, thrown) := storeToken now data st in
      Some (refreshTokenSettled k
              (match thrown with
               | None => st1
               | Some _ => refreshFailed st1
               end))
  | ARevoke call, _ => Some (settle call (Resolved NoBody) st)
  | AGetUser call, UserBody data =>
      Some (settle call (Resolved (UserBody data)) (set_user (Some data) st))
  | ARequest call, _ => Some (settle call (Resolved b) st)
  | AReplay, _ => Some st
  | _, _ => None
  end.

(** ** Events *)

Inductive Reply : Type :=
| Fulfilled (b : Body)
| Failed (status : option Z)       (* an AxiosError carrying the request's config *)
| Thrown (message : string).       (* any other error *)

Inductive Event : Type :=
| CallSignIn (call : nat) (email password : string)
| CallSignOut
| CallRevoke (call : nat)
| CallGetUser (call : nat)
| CallRequest (call : nat) (cfg : Config)
| TimerFires (id : nat)
| Response (req : nat) (r : Reply).

Fixpoint findAwaiter (req : nat) (l : list (nat * Awaiter)) : option Awaiter :=
  match l with
  | [] => None
  | (id, a) :: l' => if Nat.eqb id req then Some a else findAwaiter req l'
  end.

Definition lookupInflight (req : nat) (st : State) : option Awaiter :=
  findAwaiter req (inflight st).

Definition removeInflight (req : nat) (st : State) : State :=
  set_inflight (filter (λ p, p.1 ≠ req) (inflight st)) st.

Definition settleThrown (call : nat) (r : State * option Err) : State :=
  match r with
  | (st, Some e) => settle call (Rejected e) st
  | (st, None) => st
  end.

(** One turn of the event loop at clock reading [now].  [None]: the event
    cannot occur in this state (no such request or timer, ill-shaped body). *)
Definition step (now : Z) (ev : Event) (st : State) : option State :=
  match ev with
  | CallSignIn call email password => Some (signIn call email password st)
  | CallSignOut => Some (signOut st)
  | CallRevoke call => Some (settleThrown call (revoke call st))
  | CallGetUser call => Some (settleThrown call (getUser call st))
  | CallRequest call cfg => Some (send cfg (ARequest call) st)
  | TimerFires id =>
      if bool_decide (id ∈ (timers st).*1)
      then Some (fst (refreshToken FromTimer (expire id st)))
      else None
  | Response req r =>
      match lookupInflight req st, sent st !! req with
      | Some a, Some cfg =>
          let st1 := removeInflight req st in
          match r with
          | Fulfilled b => fulfilled now a b st1
          | Failed status => Some (onRejected a (AxiosError status (Some cfg)) st1)
          | Thrown message => Some (onRejected a (OtherError message) st1)
          end
      | _, _ => None
      end
  end.

(** The state the factory leaves: the module initialisers, then
    [if (oAuth.value !== null && shouldRefreshToken) setRefreshTokenTimeout()]. *)
Definition initial (stored : option OAuth.t) : State :=
  mkState None stored None false [] [] 0%nat [] [] 0%nat [].

Definition useAuth (now : Z) (stored : option OAuth.t) : State :=
  match stored with
  | Some _ =>
      if shouldRefreshToken
      then fst (setRefreshTokenTimeout now (initial stored))
      else initial stored
  | None => initial stored
  end.

Fixpoint run (evs : list (Z * Event)) (st : State) : option State :=
  match evs with
  | [] => Some st
  | (now, ev) :: evs' =>
      match step now ev st with
      | Some st' => run evs' st'
      | None => None
      end
  end.

Inductive reachable : State → Prop :=
| reachable_useAuth now stored : reachable (useAuth now stored)
| reachable_step st now ev st' :
    reachable st → step now ev st = Some st' → reachable st'.

(** ** Predicates used by the statements *)

(** Continuations other than [refreshToken]'s own. *)
Definition isCaller (a : Awaiter) : bool :=
  match a with
  | ARefresh _ => false
  | _ => true
  end.

Definition callerOk (k : RefreshCaller) : bool :=
  match k with
  | FromTimer => true
  | FromInterceptor _ orig => isCaller orig
  end.

(** The promise a continuation settles, when it has one. *)
Definition promise (a : Awaiter) : option nat :=
  match a with
  | ASignIn call | ARevoke call | AGetUser call | ARequest call => Some call
  | AReplay | ARefresh _ => None
  end.

Definition isRefresh (p : nat * Awaiter) : bool :=
  match p.2 with
  | ARefresh _ => true
  | _ => false
  end.

Definition isInterceptorRefresh (p : nat * Awaiter) : bool :=
  match p.2 with
  | ARefresh (FromInterceptor _ _) => true
  | _ => false
  end.

(** Refresh-grant requests whose reply is still awaited: all of them, and
    those started by the interceptor. *)
Definition refreshesInFlight (st : State) : nat :=
  length (List.filter isRefresh (inflight st)).

Definition interceptorRefreshesInFlight (st : State) : nat :=
  length (List.filter isInterceptorRefresh (inflight st)).

(** Every outstanding timeout is the one [refreshTokenTimeout] holds. *)
Definition timersTracked (st : State) : Prop :=
  match timers st with
  | [] => True
  | [(id, _)] => refreshTokenTimeout st = Some id
  | _ => False
  end.

Definition tokenUrl (cfg : Config) : Prop :=
  cfg !! "url" = Some (VStr tokenEndpoint).

(** The invariant of the reachable states. *)
Record wf (st : State) : Prop := mkWf {
  wf_timers : timersTracked st;
  wf_single : (interceptorRefreshesInFlight st ≤ 1)%nat;
  wf_idle :
    isRefreshingToken st = false →
    interceptorRefreshesInFlight st = 0%nat ∧ failedRequestsQueue st = [];
  wf_inflight :
    ∀ id a, (id, a) ∈ inflight st →
      ∃ cfg, sent st !! id = Some cfg ∧
             ∀ k, a = ARefresh k → callerOk k = true ∧ tokenUrl cfg;
}.

(** What rejecting [a] with [err] adds to the settled promises. *)
Definition rejection (a : Awaiter) (err : Err) : list (nat * Outcome) :=
  match promise a with
  | Some call => [(call, Rejected err)]
  | None => []
  end.

(** Replies a token request can get: a token body or a failure. *)
Definition tokenReply (r : Reply) : bool :=
  match r with
  | Fulfilled (TokenBody _) => true
  | Fulfilled _ => false
  | Failed _ | Thrown _ => true
  end.

Definition isRejection (r : Reply) : bool :=
  match r with
  | Fulfilled _ => false
  | Failed _ | Thrown _ => true
  end.

(** The request [setRefreshTokenTimeout] sends at once when the bundle just
    stored is already inside the pre-fetch window. *)
Definition immediateRefresh (now : Z) (data : TokenData) : list Config :=
  if shouldRefreshToken
  then if 0 <? OAuth.expiresAt (tokenBundle now data) - now
                - refreshTokenTimeoutInMs
       then []
       else [refreshGrant (tokenBundle now data)]
  else [].

(** Sample states: a session restored from storage at time 0, the same with
    two requests of the application in flight, the same after the first of
    them got a 401, and a fresh session with a [signIn] call in flight. *)
Definition restoredSession : State := useAuth 0 (Some sampleBundle).

Definition twoRequests : State :=
  send sampleRequestB (ARequest 2)
    (send sampleRequestA (ARequest 1) restoredSession).

Definition refreshStarted : State :=
  onRejected (ARequest 1) (AxiosError (Some 401) (Some sampleRequestA))
    (removeInflight 0 twoRequests).

Definition signingIn : State :=
  signIn 1 "ada@example.org" "pa55word" (useAuth 0 None).

(** ... and the state after a token response answered the refresh of
    [refreshStarted]. *)
Definition refreshAnswered : State :=
  refreshTokenSettled
    (FromInterceptor (AxiosError (Some 401) (Some sampleRequestA)) (ARequest 1))
    (fst (storeToken 3540050 sampleToken2 (removeInflight 2 refreshStarted))).

(** [st'] is as good as [st]: the invariant carries over, and the in-flight
    flag, the queue and the number of interceptor refreshes are the same. *)
Definition keeps (st st' : State) : Prop :=
  (wf st → wf st') ∧
  isRefreshingToken st' = isRefreshingToken st ∧
  failedRequestsQueue st' = failedRequestsQueue st ∧
  interceptorRefreshesInFlight st' = interceptorRefreshesInFlight st.

(** ** Further readings of the source *)

(** The value the [watch] callback on [oAuth] gives to
    [axios.defaults.headers.common.Authorization]. *)
Definition defaultAuthorization (o : option OAuth.t) : string :=
  match o with
  | None => ""
  | Some o => "Bearer " +:+ OAuth.accessToken o
  end.

(** The configs [getUser] and [revoke] hand to axios. *)
Definition userInfoRequest : Config :=
  <["url" := VStr (Options.userInfo options)]>
  (<["method" := VStr "get"]>
   {["baseURL" := VStr (Options.baseURL options)]}).

Definition revokeEndpoint (o : OAuth.t) : string :=
  match Options.revoke options with
  | RevokeFunction f => f (OAuth.accessToken o)
  | RevokeLiteral path => path
  end.

Definition revokeRequest (o : OAuth.t) : Config :=
  <["url" := VStr (revokeEndpoint o)]> {["method" := VStr "post"]}.

(** The request each kind of continuation waits for. *)
Definition requestShape (a : Awaiter) (cfg : Config) : Prop :=
  match a with
  | ASignIn _ => ∃ email password, cfg = passwordGrant email password
  | ARefresh _ => ∃ o, cfg = refreshGrant o
  | ARevoke _ => ∃ o, cfg = revokeRequest o
  | AGetUser _ => cfg = userInfoRequest
  | ARequest _ => True
  | AReplay =>
      ∃ err accessToken,
        cfg = retry err accessToken ∧ urlIsTokenEndpoint err = false
  end.

(** A second invariant of the reachable states: request numbers are not
    reused, every request in flight is the one its continuation sent, the
    queue holds [retry] closures of requests that did not go to the token
    endpoint, and without auto-refresh there is no timeout and no refresh of
    the scheduler. *)
Record shaped (st : State) : Prop := mkShaped {
  sh_ids : NoDup (inflight st).*1;
  sh_shape :
    ∀ id a, (id, a) ∈ inflight st →
      ∃ cfg, sent st !! id = Some cfg ∧ requestShape a cfg;
  sh_queue :
    ∀ f, f ∈ failedRequestsQueue st →
      ∃ err, f = retry err ∧ urlIsTokenEndpoint err = false;
  sh_manual :
    shouldRefreshToken = false →
    timers st = [] ∧ refreshTokenTimeout st = None ∧
    ∀ id, (id, ARefresh FromTimer) ∉ inflight st;
}.

(** The in-flight flag is up only while a refresh of the interceptor awaits
    its reply. *)
Definition flagged (st : State) : Prop :=
  isRefreshingToken st = true → interceptorRefreshesInFlight st = 1%nat.

(** Promises labelled [c]: those a continuation still owes, those pending in
    a state, those settled, and those the events of a run create. *)
Fixpoint owed (c : nat) (a : Awaiter) : nat :=
  match a with
  | ASignIn call | ARevoke call | AGetUser call | ARequest call =>
      if Nat.eqb call c then 1%nat else 0%nat
  | AReplay => 0%nat
  | ARefresh k => owedAfterRefresh c k
  end
with owedAfterRefresh (c : nat) (k : RefreshCaller) : nat :=
  match k with
  | FromTimer => 0%nat
  | FromInterceptor _ orig => owed c orig
  end.

Definition pendingFor (c : nat) (st : State) : nat :=
  sum_list_with (λ p, owed c p.2) (inflight st).

Definition settledFor (c : nat) (st : State) : nat :=
  sum_list_with (λ p, if Nat.eqb p.1 c then 1%nat else 0%nat) (settled st).

Definition created (c : nat) (ev : Event) : nat :=
  match ev with
  | CallSignIn call _ _ | CallRevoke call | CallGetUser call
  | CallRequest call _ => if Nat.eqb call c then 1%nat else 0%nat
  | CallSignOut | TimerFires _ | Response _ _ => 0%nat
  end.

Definition createdBy (c : nat) (evs : list (Z * Event)) : nat :=
  sum_list_with (λ p, created c p.2) evs.

Definition balance (c : nat) (st : State) : nat :=
  (settledFor c st + pendingFor c st)%nat.

(** ** Shape of the helpers *)

Lemma foldl_send accessToken (q : list (string → Config)) (st : State) :
  foldl (λ s request, send (request accessToken) AReplay s) st q =
  mkState (user st) (oAuth st) (refreshTokenTimeout st) (isRefreshingToken st)
    (failedRequestsQueue st) (timers st) (nextTimer st)
    (sent st ++ map (λ request, request accessToken) q)
    (inflight st ++
       map (λ i, (i, AReplay)) (seq (length (sent st)) (length q)))
    (refreshFailedCalls st) (settled st).
Proof.
  revert st. induction q as [|request q IH]; intros st.
  - destruct st; simpl. by rewrite !app_nil_r.
  - simpl foldl. rewrite IH. simpl.
    rewrite <- !app_assoc, length_app. simpl.
    by rewrite Nat.add_1_r.
Qed.

Lemma processQueue_eq accessToken (st : State) :
  processQueue accessToken st =
  mkState (user st) (oAuth st) (refreshTokenTimeout st) (isRefreshingToken st)
    (failedRequestsQueue st) (timers st) (nextTimer st)
    (sent st ++ map (λ request, request accessToken) (failedRequestsQueue st))
    (inflight st ++
       map (λ i, (i, AReplay))
         (seq (length (sent st)) (length (failedRequestsQueue st))))
    (refreshFailedCalls st) (settled st).
Proof. apply foldl_send. Qed.

Lemma tokenRequest_url params : tokenUrl (tokenRequest params).
Proof.
  unfold tokenUrl, tokenRequest.
  rewrite !lookup_insert_ne by done. apply lookup_insert_eq.
Qed.

Lemma token_error_not_refreshable status cfg (st : State) :
  tokenUrl cfg → refreshable (AxiosError status (Some cfg)) st = false.
Proof.
  intros Hurl. unfold refreshable, urlIsTokenEndpoint, errUrl. simpl.
  rewrite Hurl. simpl. by rewrite !orb_true_r.
Qed.

(** ** Counting the refreshes in flight *)

Lemma replays_not_refresh (P : nat * Awaiter → bool) (ids : list nat) :
  P (0%nat, AReplay) = false →
  (∀ i j a, P (i, a) = P (j, a)) →
  List.filter P (map (λ i, (i, AReplay)) ids) = [].
Proof.
  intros HP Hid. induction ids as [|i ids IH]; [done|].
  simpl. by rewrite (Hid i 0%nat), HP.
Qed.

Lemma interceptor_refresh_id i j (a : Awaiter) :
  isInterceptorRefresh (i, a) = isInterceptorRefresh (j, a).
Proof. done. Qed.

Lemma count_remove (P : nat * Awaiter → bool) req (l : list (nat * Awaiter)) :
  (length (List.filter P (filter (λ p, p.1 ≠ req) l)) ≤ length (List.filter P l))%nat.
Proof.
  induction l as [|[i a] l IH]; [done|].
  rewrite filter_cons. simpl. case_decide; simpl; destruct (P (i, a)); simpl; lia.
Qed.

Lemma count_remove_found (P : nat * Awaiter → bool) req a
    (l : list (nat * Awaiter)) :
  findAwaiter req l = Some a → P (req, a) = true →
  (length (List.filter P (filter (λ p, p.1 ≠ req) l)) < length (List.filter P l))%nat.
Proof.
  induction l as [|[i b] l IH]; [done|].
  simpl. rewrite filter_cons. simpl.
  destruct (Nat.eqb_spec i req) as [->|Hne].
  - intros [= ->] HP. rewrite HP. rewrite decide_False by (intros H; by apply H).
    simpl. pose proof (count_remove P req l). lia.
  - intros Hfind HP. rewrite decide_True by done. simpl.
    specialize (IH Hfind HP). destruct (P (i, b)); simpl; lia.
Qed.

Lemma findAwaiter_elem req a (l : list (nat * Awaiter)) :
  findAwaiter req l = Some a → (req, a) ∈ l.
Proof.
  induction l as [|[i b] l IH]; [done|].
  simpl. destruct (Nat.eqb_spec i req) as [->|Hne].
  - intros [= ->]. apply list_elem_of_here.
  - intros H. apply list_elem_of_further; auto.
Qed.

(** ** The invariant is kept *)

Lemma wf_frame (st st' : State) :
  wf st → timersTracked st' →
  isRefreshingToken st' = isRefreshingToken st →
  failedRequestsQueue st' = failedRequestsQueue st →
  inflight st' = inflight st → sent st' = sent st → wf st'.
Proof.
  intros [Ht Hs Hi Hr] Ht' Hf Hq Hin Hsent.
  constructor; unfold interceptorRefreshesInFlight in *;
    rewrite ?Hf, ?Hq, ?Hin, ?Hsent; auto.
Qed.

Lemma wf_send cfg a (st : State) :
  wf st → isInterceptorRefresh (0%nat, a) = false →
  (∀ k, a = ARefresh k → callerOk k = true ∧ tokenUrl cfg) →
  wf (send cfg a st).
Proof.
  intros [Ht Hs Hi Hr] Ha Hk.
  assert (Hcount : interceptorRefreshesInFlight (send cfg a st)
                   = interceptorRefreshesInFlight st).
  { unfold interceptorRefreshesInFlight. simpl.
    rewrite List.filter_app, length_app. simpl.
    rewrite (interceptor_refresh_id _ 0%nat), Ha. simpl. lia. }
  constructor; rewrite ?Hcount; auto.
  intros id b [Hin|Hin]%elem_of_app.
  - destruct (Hr id b Hin) as (cfg' & Hl & Hu).
    exists cfg'. split; [|done]. simpl. rewrite lookup_app_l; [done|].
    by eapply lookup_lt_Some.
  - apply list_elem_of_singleton in Hin. injection Hin as -> ->.
    exists cfg. split; [|done]. simpl. by rewrite list_lookup_middle.
Qed.

Lemma wf_processQueue accessToken (st : State) :
  wf st → wf (processQueue accessToken st).
Proof.
  unfold processQueue. generalize (failedRequestsQueue st) as q.
  intros q. revert st. induction q as [|request q IH]; intros st Hwf; [done|].
  simpl. apply IH. by apply wf_send.
Qed.

Lemma processQueue_count accessToken (st : State) :
  interceptorRefreshesInFlight (processQueue accessToken st)
  = interceptorRefreshesInFlight st.
Proof.
  rewrite processQueue_eq. unfold interceptorRefreshesInFlight. simpl.
  rewrite List.filter_app, length_app.
  rewrite replays_not_refresh; [simpl; lia|done|done].
Qed.

Lemma keeps_refl (st : State) : keeps st st.
Proof. by split_and!. Qed.

Lemma keeps_trans (st1 st2 st3 : State) :
  keeps st1 st2 → keeps st2 st3 → keeps st1 st3.
Proof.
  intros (Hw & Hf & Hq & Hc) (Hw' & Hf' & Hq' & Hc').
  split_and!; [auto|congruence..].
Qed.

Lemma keeps_frame (st st' : State) :
  (timersTracked st → timersTracked st') →
  isRefreshingToken st' = isRefreshingToken st →
  failedRequestsQueue st' = failedRequestsQueue st →
  inflight st' = inflight st → sent st' = sent st → keeps st st'.
Proof.
  intros Ht Hf Hq Hin Hsent. split_and!; [|done..|].
  - intros Hwf. apply (wf_frame st); [done| |done..]. apply Ht, Hwf.
  - unfold interceptorRefreshesInFlight. by rewrite Hin.
Qed.

Lemma keeps_send cfg a (st : State) :
  isInterceptorRefresh (0%nat, a) = false →
  (∀ k, a = ARefresh k → callerOk k = true ∧ tokenUrl cfg) →
  keeps st (send cfg a st).
Proof.
  intros Ha Hk. split_and!; [|done..|].
  - intros Hwf. by apply wf_send.
  - unfold interceptorRefreshesInFlight. simpl.
    rewrite List.filter_app, length_app. simpl.
    rewrite (interceptor_refresh_id _ 0%nat), Ha. simpl. lia.
Qed.

Lemma timers_cleared id (st : State) :
  timersTracked st → refreshTokenTimeout st = Some id →
  timers (clearTimeout id st) = [].
Proof.
  unfold timersTracked. simpl.
  destruct (timers st) as [|[i d] [|t l]]; [done| |done].
  intros -> [= ->]. rewrite filter_cons. simpl.
  by rewrite decide_False by (intros H; by apply H).
Qed.

Lemma timers_untracked (st : State) :
  timersTracked st → refreshTokenTimeout st = None → timers st = [].
Proof.
  unfold timersTracked.
  destruct (timers st) as [|[i d] [|t l]]; [done| |done]. congruence.
Qed.

Lemma timersTracked_clearTimeout id (st : State) :
  timersTracked st → timersTracked (clearTimeout id st).
Proof.
  unfold timersTracked. simpl.
  destruct (timers st) as [|[i d] [|t l]]; [done| |done].
  intros Hvar. rewrite filter_cons. simpl. case_decide; by simpl.
Qed.

Lemma keeps_clearTimeout id (st : State) : keeps st (clearTimeout id st).
Proof. apply keeps_frame; [apply timersTracked_clearTimeout|done..]. Qed.

Lemma keeps_refreshToken_timer (st : State) :
  keeps st (fst (refreshToken FromTimer st)).
Proof.
  unfold refreshToken. destruct (oAuth st) as [o|]; simpl.
  - apply keeps_send; [done|]. intros k [= <-]. split; [done|].
    apply tokenRequest_url.
  - apply keeps_refl.
Qed.

Lemma keeps_setRefreshTokenTimeout now (st : State) :
  keeps st (fst (setRefreshTokenTimeout now st)).
Proof.
  unfold setRefreshTokenTimeout.
  set (st1 := match refreshTokenTimeout st with
              | Some id => clearTimeout id st
              | None => st
              end).
  assert (H1 : keeps st st1).
  { subst st1. destruct (refreshTokenTimeout st);
      [apply keeps_clearTimeout|apply keeps_refl]. }
  assert (Hno : timersTracked st → timers st1 = []).
  { subst st1. destruct (refreshTokenTimeout st) eqn:E; intros Ht;
      [by apply timers_cleared|by apply timers_untracked]. }
  destruct (oAuth st1) as [o|]; simpl; [|done].
  case (0 <? _); simpl.
  - destruct H1 as (Hw & Hf & Hq & Hc). split_and!; [|done..].
    intros Hwf. apply (wf_frame st1); [by apply Hw| |done..].
    unfold timersTracked. simpl. rewrite Hno by apply Hwf. done.
  - eapply keeps_trans; [apply H1|apply keeps_refreshToken_timer].
Qed.

Lemma keeps_storeToken now data (st : State) :
  keeps st (fst (storeToken now data st)).
Proof.
  unfold storeToken. destruct shouldRefreshToken.
  - eapply keeps_trans; [|apply keeps_setRefreshTokenTimeout].
    by apply keeps_frame.
  - by apply keeps_frame.
Qed.

Lemma keeps_refreshFailed (st : State) : keeps st (refreshFailed st).
Proof. by apply keeps_frame. Qed.

Lemma keeps_settle call o (st : State) : keeps st (settle call o st).
Proof. by apply keeps_frame. Qed.

Lemma keeps_signOut (st : State) : keeps st (signOut st).
Proof.
  unfold signOut. simpl. destruct (refreshTokenTimeout st).
  - eapply keeps_trans; [|apply keeps_clearTimeout]. by apply keeps_frame.
  - by apply keeps_frame.
Qed.

Lemma keeps_rejected_caller a err (st : State) :
  isCaller a = true → keeps st (rejected a err st).
Proof.
  destruct a; try done; intros _; simpl;
    first [apply keeps_settle | apply keeps_refl].
Qed.

Lemma wf_clearQueue (st : State) :
  wf st → interceptorRefreshesInFlight st = 0%nat → wf (clearQueue st).
Proof.
  intros [Ht Hs Hi Hr] Hc. by constructor.
Qed.

Lemma wf_refreshTokenSettled k (st : State) :
  wf st → callerOk k = true →
  (isInterceptorRefresh (0%nat, ARefresh k) = true →
   interceptorRefreshesInFlight st = 0%nat) →
  wf (refreshTokenSettled k st).
Proof.
  destruct k as [|err orig]; [done|].
  intros Hwf Hok Hc. specialize (Hc eq_refl). simpl in Hok. simpl.
  apply keeps_rejected_caller; [done|].
  destruct (oAuth st) as [o|].
  - rewrite processQueue_eq. apply wf_clearQueue.
    + rewrite <- processQueue_eq. by apply wf_processQueue.
    + rewrite <- processQueue_eq. by rewrite processQueue_count.
  - by apply wf_clearQueue.
Qed.

Lemma wf_rejected a err (st : State) :
  wf st →
  (∀ k, a = ARefresh k →
     callerOk k = true ∧
     (isInterceptorRefresh (0%nat, a) = true →
      interceptorRefreshesInFlight st = 0%nat)) →
  wf (rejected a err st).
Proof.
  intros Hwf Hk. destruct a as [call|call|call|call| |k];
    try (by apply keeps_rejected_caller).
  destruct (Hk k eq_refl) as [Hok Hc]. simpl.
  destruct (keeps_refreshFailed st) as (Hw & _ & _ & Hcount).
  apply wf_refreshTokenSettled; [by apply Hw|done|].
  intros Hi. rewrite Hcount. by apply Hc.
Qed.

Lemma refreshable_oAuth err (st : State) :
  refreshable err st = true → ∃ o, oAuth st = Some o.
Proof.
  unfold refreshable, oAuthIsNone. destruct err; [|done].
  destruct (oAuth st) as [o|]; [by exists o|].
  by rewrite orb_true_r.
Qed.

Lemma wf_onRejected a err (st : State) :
  wf st →
  (∀ k, a = ARefresh k →
     refreshable err st = false ∧ callerOk k = true ∧
     (isInterceptorRefresh (0%nat, a) = true →
      interceptorRefreshesInFlight st = 0%nat)) →
  wf (onRejected a err st).
Proof.
  intros Hwf Hk. unfold onRejected.
  destruct (refreshable err st) eqn:Href.
  - assert (Ha : isCaller a = true).
    { destruct a; try done. by destruct (Hk _ eq_refl). }
    destruct (refreshable_oAuth _ _ Href) as [o Ho].
    destruct Hwf as [Ht Hs Hi Hr]. simpl.
    destruct (isRefreshingToken st) eqn:Hflag.
    + apply keeps_rejected_caller; [done|]. constructor; simpl; try done.
      by rewrite Hflag.
    + unfold refreshToken. simpl. rewrite Ho.
      destruct (Hi eq_refl) as [Hc Hq].
      constructor; simpl; try done.
      * unfold interceptorRefreshesInFlight in *. simpl.
        rewrite List.filter_app, length_app, Hc. simpl. lia.
      * intros id b [Hin|Hin]%elem_of_app.
        -- destruct (Hr id b Hin) as (cfg' & Hl & Hu).
           exists cfg'. split; [|done]. rewrite lookup_app_l; [done|].
           by eapply lookup_lt_Some.
        -- apply list_elem_of_singleton in Hin. injection Hin as -> ->.
           exists (refreshGrant o).
           split; [by rewrite list_lookup_middle|].
           intros k [= <-]. split; [done|apply tokenRequest_url].
  - apply wf_rejected; [done|]. intros k ->.
    destruct (Hk k eq_refl) as (_ & Hok & Hc). done.
Qed.

Lemma wf_fulfilled now a b (st st' : State) :
  wf st →
  (∀ k, a = ARefresh k →
     callerOk k = true ∧
     (isInterceptorRefresh (0%nat, a) = true →
      interceptorRefreshesInFlight st = 0%nat)) →
  fulfilled now a b st = Some st' → wf st'.
Proof.
  intros Hwf Hk. unfold fulfilled.
  destruct a as [call|call|call|call| |k].
  - destruct b as [data|u|]; [|done..].
    destruct (storeToken now data st) as [st1 thrown] eqn:E.
    intros [= <-]. apply keeps_settle.
    change st1 with (fst (st1, thrown)). rewrite <- E.
    by apply keeps_storeToken.
  - intros [= <-]. by apply keeps_settle.
  - destruct b as [data|u|]; [done| |done].
    intros [= <-]. apply keeps_settle.
    apply (wf_frame st); [done|apply Hwf|done..].
  - intros [= <-]. by apply keeps_settle.
  - by intros [= <-].
  - destruct b as [data|u|]; [|done..].
    destruct (storeToken now data st) as [st1 thrown] eqn:E.
    intros [= <-]. destruct (Hk k eq_refl) as [Hok Hc].
    pose proof (keeps_storeToken now data st) as (Hw & _ & _ & Hcount).
    rewrite E in Hw, Hcount. simpl in Hw, Hcount.
    destruct thrown as [e|].
    + destruct (keeps_refreshFailed st1) as (Hw' & _ & _ & Hcount').
      apply wf_refreshTokenSettled; [auto|done|].
      intros Hi. rewrite Hcount', Hcount. by apply Hc.
    + apply wf_refreshTokenSettled; [auto|done|].
      intros Hi. rewrite Hcount. by apply Hc.
Qed.

Lemma wf_removeInflight req (st : State) : wf st → wf (removeInflight req st).
Proof.
  intros [Ht Hs Hi Hr].
  pose proof (count_remove isInterceptorRefresh req (inflight st)) as Hle.
  unfold interceptorRefreshesInFlight in *.
  constructor; unfold interceptorRefreshesInFlight; simpl; try done.
  - lia.
  - intros Hf. destruct (Hi Hf) as [Hc Hq]. split; [lia|done].
  - intros id b [_ Hin]%list_elem_of_filter. by apply Hr.
Qed.

Lemma removeInflight_count req a (st : State) :
  wf st → lookupInflight req st = Some a →
  isInterceptorRefresh (0%nat, a) = true →
  interceptorRefreshesInFlight (removeInflight req st) = 0%nat.
Proof.
  intros Hwf Hfind Ha.
  pose proof (count_remove_found isInterceptorRefresh req a (inflight st)
                Hfind Ha) as Hlt.
  pose proof (wf_single _ Hwf) as Hs.
  unfold interceptorRefreshesInFlight in *. simpl. lia.
Qed.

Lemma wf_step now ev (st st' : State) :
  wf st → step now ev st = Some st' → wf st'.
Proof.
  intros Hwf. destruct ev as [call email password| |call|call|call cfg|id|req r];
    simpl.
  - intros [= <-]. by apply keeps_send.
  - intros [= <-]. by apply keeps_signOut.
  - intros [= <-]. unfold revoke. destruct (oAuth st); simpl.
    + by apply keeps_send.
    + by apply keeps_settle.
  - intros [= <-]. unfold getUser. destruct (oAuth st); simpl.
    + by apply keeps_send.
    + by apply keeps_settle.
  - intros [= <-]. by apply keeps_send.
  - case_bool_decide; [|done]. intros [= <-].
    apply keeps_refreshToken_timer. by apply keeps_clearTimeout.
  - destruct (lookupInflight req st) as [a|] eqn:Hfind; [|done].
    destruct (sent st !! req) as [cfg|] eqn:Hcfg; [|done].
    assert (Hk : ∀ k, a = ARefresh k →
               tokenUrl cfg ∧ callerOk k = true ∧
               (isInterceptorRefresh (0%nat, a) = true →
                interceptorRefreshesInFlight (removeInflight req st) = 0%nat)).
    { intros k ->. apply findAwaiter_elem in Hfind as Hin.
      destruct (wf_inflight _ Hwf req _ Hin) as (cfg' & Hl & Hu).
      assert (cfg' = cfg) as -> by congruence.
      destruct (Hu k eq_refl) as [Hok Hurl].
      split_and!; [done..|]. intros Hi. by eapply removeInflight_count. }
    pose proof (wf_removeInflight req st Hwf) as Hwf1.
    destruct r as [b|status|message].
    + apply wf_fulfilled; [done|]. intros k Hak.
      by destruct (Hk k Hak) as (_ & Hok & Hc).
    + intros [= <-]. apply wf_onRejected; [done|]. intros k Hak.
      destruct (Hk k Hak) as (Hu & Hok & Hc).
      split_and!; [by apply token_error_not_refreshable|done..].
    + intros [= <-]. apply wf_onRejected; [done|]. intros k Hak.
      by destruct (Hk k Hak) as (Hu & Hok & Hc).
Qed.

Lemma wf_initial stored : wf (initial stored).
Proof.
  constructor; try done.
  - unfold interceptorRefreshesInFlight. simpl. lia.
  - intros id a Hin. by apply elem_of_nil in Hin.
Qed.

Lemma wf_useAuth now stored : wf (useAuth now stored).
Proof.
  unfold useAuth. destruct stored; [|apply wf_initial].
  destruct shouldRefreshToken; [|apply wf_initial].
  apply keeps_setRefreshTokenTimeout, wf_initial.
Qed.

Lemma reachable_wf (st : State) : reachable st → wf st.
Proof.
  induction 1 as [now stored|st now ev st' _ IH Hstep].
  - apply wf_useAuth.
  - by eapply wf_step.
Qed.

Lemma reachable_run evs (st st' : State) :
  reachable st → run evs st = Some st' → reachable st'.
Proof.
  revert st. induction evs as [|[now ev] evs IH]; intros st Hr; simpl.
  - by intros [= <-].
  - destruct (step now ev st) as [st1|] eqn:Hstep; [|done].
    apply IH. by eapply reachable_step.
Qed.

(** ** Delivering a reply *)

Lemma findAwaiter_fresh req a (l : list (nat * Awaiter)) :
  (∀ id b, (id, b) ∈ l → id ≠ req) →
  findAwaiter req (l ++ [(req, a)]) = Some a.
Proof.
  induction l as [|[i b] l IH]; intros Hl; simpl.
  - by rewrite Nat.eqb_refl.
  - destruct (Nat.eqb_spec i req) as [->|Hne].
    + exfalso. eapply Hl; [apply list_elem_of_here|done].
    + apply IH. intros id c Hin. apply (Hl id c).
      by apply list_elem_of_further.
Qed.

Lemma findAwaiter_app req a (l l' : list (nat * Awaiter)) :
  findAwaiter req l = Some a → findAwaiter req (l ++ l') = Some a.
Proof.
  induction l as [|[i c] l IH]; [done|]. simpl.
  destruct (Nat.eqb i req); [done|apply IH].
Qed.

Lemma findAwaiter_remove req req' (l : list (nat * Awaiter)) :
  req ≠ req' →
  findAwaiter req (filter (λ p, p.1 ≠ req') l) = findAwaiter req l.
Proof.
  intros Hne. induction l as [|[i c] l IH]; [done|].
  rewrite filter_cons. simpl. case_decide as Hi; simpl.
  - by rewrite IH.
  - destruct (Nat.eqb_spec i req) as [->|_]; [|done].
    by destruct Hne.
Qed.

Lemma inflight_fresh (st : State) :
  wf st → ∀ id b, (id, b) ∈ inflight st → id ≠ length (sent st).
Proof.
  intros Hwf id b Hin. destruct (wf_inflight _ Hwf id b Hin) as (cfg & Hl & _).
  apply lookup_lt_Some in Hl. lia.
Qed.

Lemma step_response now req r a (st : State) :
  reachable st → lookupInflight req st = Some a →
  ∃ cfg, sent st !! req = Some cfg ∧
    (∀ k, a = ARefresh k → callerOk k = true ∧ tokenUrl cfg) ∧
    step now (Response req r) st =
      match r with
      | Fulfilled b => fulfilled now a b (removeInflight req st)
      | Failed status =>
          Some (onRejected a (AxiosError status (Some cfg))
                  (removeInflight req st))
      | Thrown message =>
          Some (onRejected a (OtherError message) (removeInflight req st))
      end.
Proof.
  intros Hwf%reachable_wf Hfind.
  destruct (wf_inflight _ Hwf req a (findAwaiter_elem _ _ _ Hfind))
    as (cfg & Hl & Hk).
  exists cfg. split_and!; [done..|]. simpl. by rewrite Hfind, Hl.
Qed.

(** ** What the continuations write *)

Lemma storeToken_fields now data (st : State) :
  let st' := fst (storeToken now data st) in
  snd (storeToken now data st) = None ∧
  oAuth st' = Some (tokenBundle now data) ∧
  user st' = user st ∧
  isRefreshingToken st' = isRefreshingToken st ∧
  failedRequestsQueue st' = failedRequestsQueue st ∧
  sent st' = sent st ++ immediateRefresh now data ∧
  refreshFailedCalls st' = refreshFailedCalls st ∧
  settled st' = settled st.
Proof.
  unfold storeToken, immediateRefresh, setRefreshTokenTimeout, refreshToken.
  destruct shouldRefreshToken; simpl; [|by rewrite app_nil_r].
  destruct (refreshTokenTimeout st); simpl;
    case (0 <? _); simpl; by rewrite ?app_nil_r.
Qed.

Lemma fulfilled_signIn now call data (st : State) :
  fulfilled now (ASignIn call) (TokenBody data) st =
  Some (settle call (Resolved NoBody) (fst (storeToken now data st))).
Proof.
  pose proof (storeToken_fields now data st) as [Hsnd _]. simpl.
  destruct (storeToken now data st) as [st1 thrown]. simpl in *. by subst.
Qed.

Lemma fulfilled_refresh now k data (st : State) :
  fulfilled now (ARefresh k) (TokenBody data) st =
  Some (refreshTokenSettled k (fst (storeToken now data st))).
Proof.
  pose proof (storeToken_fields now data st) as [Hsnd _]. simpl.
  destruct (storeToken now data st) as [st1 thrown]. simpl in *. by subst.
Qed.

Lemma refreshTokenSettled_fields k (st : State) :
  callerOk k = true →
  let st' := refreshTokenSettled k st in
  oAuth st' = oAuth st ∧
  user st' = user st ∧
  refreshFailedCalls st' = refreshFailedCalls st ∧
  match k with
  | FromTimer => st' = st
  | FromInterceptor err a =>
      sent st' = sent st ++
        match oAuth st with
        | Some o =>
            map (λ request, request (OAuth.accessToken o))
              (failedRequestsQueue st)
        | None => []
        end ∧
      failedRequestsQueue st' = [] ∧ isRefreshingToken st' = false ∧
      settled st' = settled st ++ rejection a err
  end.
Proof.
  destruct k as [|err a]; [done|]. simpl. intros Ha.
  destruct (oAuth st) as [o|] eqn:Ho; rewrite ?processQueue_eq;
    destruct a; try done; simpl; by rewrite ?Ho, ?app_nil_r.
Qed.

Lemma rejected_refresh k err (st : State) :
  rejected (ARefresh k) err st = refreshTokenSettled k (refreshFailed st).
Proof. done. Qed.

Lemma onRejected_propagates a err (st : State) :
  refreshable err st = false → onRejected a err st = rejected a err st.
Proof. unfold onRejected. by intros ->. Qed.

Lemma onRejected_start a err o (st : State) :
  refreshable err st = true → isRefreshingToken st = false →
  oAuth st = Some o →
  onRejected a err st =
  send (refreshGrant o) (ARefresh (FromInterceptor err a))
    (set_isRefreshingToken true
       (set_failedRequestsQueue (failedRequestsQueue st ++ [retry err]) st)).
Proof.
  intros Href Hflag Ho. unfold onRejected, refreshToken. simpl.
  by rewrite Href, Hflag, Ho.
Qed.

Lemma onRejected_queued a err (st : State) :
  refreshable err st = true → isRefreshingToken st = true →
  onRejected a err st =
  rejected a err
    (set_failedRequestsQueue (failedRequestsQueue st ++ [retry err]) st).
Proof.
  intros Href Hflag. unfold onRejected. simpl. by rewrite Href, Hflag.
Qed.

Lemma rejected_caller_fields a err (st : State) :
  isCaller a = true →
  let st' := rejected a err st in
  settled st' = settled st ++ rejection a err ∧
  sent st' = sent st ∧ inflight st' = inflight st ∧
  failedRequestsQueue st' = failedRequestsQueue st ∧
  isRefreshingToken st' = isRefreshingToken st ∧
  oAuth st' = oAuth st ∧ user st' = user st.
Proof. destruct a; try done; simpl; by rewrite ?app_nil_r. Qed.

Lemma promise_isCaller a call : promise a = Some call → isCaller a = true.
Proof. by destruct a. Qed.

(** ** Operations without a session *)

(** C7: called while the token bundle is absent, [refreshToken], [revoke] and
    [getUser] each fail with the error 'Not logged in', hand no request to
    axios and leave the whole state as it was; as events, the promises of
    [revoke] and [getUser] are rejected with that error and nothing else
    changes. *)
Theorem not_logged_in_fails_fast (st : State) k call now :
  oAuth st = None →
  refreshToken k st = (st, Some notLoggedIn) ∧
  revoke call st = (st, Some notLoggedIn) ∧
  getUser call st = (st, Some notLoggedIn) ∧
  step now (CallRevoke call) st = Some (settle call (Rejected notLoggedIn) st) ∧
  step now (CallGetUser call) st = Some (settle call (Rejected notLoggedIn) st) ∧
  sent (settle call (Rejected notLoggedIn) st) = sent st.
Proof.
  intros Ho. unfold refreshToken, revoke, getUser. simpl.
  unfold revoke, getUser. by rewrite Ho.
Qed.

(** ** Sign-out *)

Lemma filter_twice {A} (P : A → Prop) `{∀ x, Decision (P x)} (l : list A) :
  filter P (filter P l) = filter P l.
Proof.
  induction l as [|x l IH]; [done|].
  rewrite filter_cons. case_decide; [|done].
  rewrite filter_cons, decide_True by done. by rewrite IH.
Qed.

Lemma signOut_eq (st : State) :
  signOut st =
  mkState None None (refreshTokenTimeout st) (isRefreshingToken st)
    (failedRequestsQueue st)
    (match refreshTokenTimeout st with
     | Some id => filter (λ t, t.1 ≠ id) (timers st)
     | None => timers st
     end)
    (nextTimer st) (sent st) (inflight st) (refreshFailedCalls st)
    (settled st).
Proof.
  unfold signOut, clearTimeout, set_user, set_oAuth. simpl.
  by destruct (refreshTokenTimeout st).
Qed.

(** C9: [signOut] sets the token bundle and the user to absent and leaves no
    timeout outstanding; it always returns (as an event it always yields a
    state), and a second call changes nothing. *)
Theorem signOut_idempotent (st : State) now :
  reachable st →
  oAuth (signOut st) = None ∧
  user (signOut st) = None ∧
  isAuthenticated (signOut st) = false ∧
  timers (signOut st) = [] ∧
  step now CallSignOut st = Some (signOut st) ∧
  signOut (signOut st) = signOut st.
Proof.
  intros Hwf%reachable_wf. pose proof (wf_timers _ Hwf) as Ht.
  split_and!; try done; try (by rewrite signOut_eq).
  - rewrite signOut_eq. simpl.
    destruct (refreshTokenTimeout st) as [id|] eqn:Hvar.
    + by apply (timers_cleared id st).
    + by apply timers_untracked.
  - rewrite (signOut_eq (signOut st)), (signOut_eq st). simpl.
    destruct (refreshTokenTimeout st); [|done]. by rewrite filter_twice.
Qed.

(** C10: [signOut] writes the token bundle, the user and the timeouts only:
    the queue of failed requests, the in-flight flag and the requests in
    flight are as before.  So a refresh the interceptor started before the
    sign-out goes on when its reply comes: on a token response the queued
    requests are replayed in order with the new access token, and in either
    case the queue is emptied and the flag reset. *)
Theorem signOut_frame (st : State) :
  (failedRequestsQueue (signOut st) = failedRequestsQueue st ∧
   isRefreshingToken (signOut st) = isRefreshingToken st ∧
   inflight (signOut st) = inflight st ∧
   sent (signOut st) = sent st ∧
   refreshFailedCalls (signOut st) = refreshFailedCalls st ∧
   settled (signOut st) = settled st) ∧
  ∀ req err a now,
    reachable st →
    lookupInflight req st = Some (ARefresh (FromInterceptor err a)) →
    (∀ data, ∃ st',
       step now (Response req (Fulfilled (TokenBody data))) (signOut st)
         = Some st' ∧
       sent st' = sent st ++ immediateRefresh now data ++
                  map (λ request, request (access_token data))
                    (failedRequestsQueue st) ∧
       failedRequestsQueue st' = [] ∧ isRefreshingToken st' = false) ∧
    (∀ r, isRejection r = true → ∃ st',
       step now (Response req r) (signOut st) = Some st' ∧
       sent st' = sent st ∧
       failedRequestsQueue st' = [] ∧ isRefreshingToken st' = false).
Proof.
  split; [by rewrite signOut_eq|].
  intros req err a now Hr Hfind.
  assert (Hr' : reachable (signOut st)).
  { by apply (reachable_step st now CallSignOut). }
  assert (Hfind' : lookupInflight req (signOut st)
                   = Some (ARefresh (FromInterceptor err a))).
  { unfold lookupInflight. by rewrite signOut_eq. }
  split.
  - intros data.
    destruct (step_response now req (Fulfilled (TokenBody data)) _ _ Hr' Hfind')
      as (cfg & Hl & Hk & ->).
    destruct (Hk _ eq_refl) as [Hok _].
    rewrite fulfilled_refresh. eexists. split; [done|].
    set (st1 := removeInflight req (signOut st)).
    pose proof (storeToken_fields now data st1)
      as (_ & Ho & _ & Hf & Hq & Hs & _).
    pose proof (refreshTokenSettled_fields _ (fst (storeToken now data st1)) Hok)
      as (_ & _ & _ & Hsent & Hq' & Hf' & _).
    split_and!; [|done..].
    rewrite Hsent, Ho, Hs, Hq. subst st1. rewrite signOut_eq. simpl.
    by rewrite app_assoc.
  - intros r Hrej.
    destruct (step_response now req r _ _ Hr' Hfind') as (cfg & Hl & Hk & ->).
    destruct (Hk _ eq_refl) as [Hok Hurl].
    set (st1 := removeInflight req (signOut st)).
    assert (Hgo : ∀ e, refreshable e st1 = false →
              ∃ st', Some (onRejected (ARefresh (FromInterceptor err a)) e st1)
                     = Some st' ∧
                sent st' = sent st ∧ failedRequestsQueue st' = [] ∧
                isRefreshingToken st' = false).
    { intros e He. rewrite onRejected_propagates by done.
      eexists. split; [done|]. rewrite rejected_refresh.
      pose proof (refreshTokenSettled_fields _ (refreshFailed st1) Hok)
        as (_ & _ & _ & Hsent & Hq' & Hf' & _).
      split_and!; [|done..].
      rewrite Hsent. subst st1. rewrite signOut_eq. simpl.
      by rewrite app_nil_r. }
    destruct r as [b|status|message]; [done| |].
    + apply Hgo. by apply token_error_not_refreshable.
    + by apply Hgo.
Qed.

(** ** The interceptor *)

Lemma not_refreshable err (st : State) :
  errStatus err ≠ Some 401 ∨ oAuth st = None
  ∨ errUrl err = Some (VStr tokenEndpoint) →
  refreshable err st = false.
Proof.
  destruct err as [status config|message]; [|done].
  unfold refreshable, statusIs401, oAuthIsNone, urlIsTokenEndpoint.
  intros [Hs|[Ho|Hu]].
  - destruct (errStatus _) as [s|]; [|done].
    destruct (Z.eqb_spec s 401) as [->|]; done.
  - rewrite Ho. by rewrite orb_true_r.
  - rewrite Hu. simpl. by rewrite orb_true_r.
Qed.

Lemma refreshable_401 cfg o (st : State) :
  oAuth st = Some o → cfg !! "url" ≠ Some (VStr tokenEndpoint) →
  refreshable (AxiosError (Some 401) (Some cfg)) st = true.
Proof.
  intros Ho Hu.
  unfold refreshable, oAuthIsNone, urlIsTokenEndpoint, errUrl. simpl.
  rewrite Ho. destruct (cfg !! "url") as [[url| |]|]; try done. simpl.
  destruct (String.eqb_spec url tokenEndpoint) as [->|]; [by destruct Hu|done].
Qed.

(** C4: when the status is not 401, or the token bundle is absent, or the
    failing request's URL is '/oauth/token', the error handler does nothing
    but reject with the error it received: whoever awaits the request gets
    that same error, no refresh is started and nothing is queued. *)
Theorem interceptor_propagates a err (st : State) :
  errStatus err ≠ Some 401 ∨ oAuth st = None
  ∨ errUrl err = Some (VStr tokenEndpoint) →
  onRejected a err st = rejected a err st ∧
  match promise a with
  | Some call => onRejected a err st = settle call (Rejected err) st
  | None => True
  end ∧
  (isCaller a = true →
   sent (onRejected a err st) = sent st ∧
   inflight (onRejected a err st) = inflight st ∧
   failedRequestsQueue (onRejected a err st) = failedRequestsQueue st ∧
   isRefreshingToken (onRejected a err st) = isRefreshingToken st ∧
   oAuth (onRejected a err st) = oAuth st).
Proof.
  intros H%not_refreshable. rewrite onRejected_propagates by done.
  split_and!; [done|by destruct a|]. by destruct a.
Qed.

(** ** The refresh scheduler *)


(** ** Token responses *)

(** C1 (as the code has it): when the token response of a [signIn] call
    arrives, the promise of the call is resolved and the token bundle is
    present; the user is not written, and [isAuthenticated] is
    'user is not null', so it yields what it yielded before the call. *)
Theorem signIn_keeps_isAuthenticated (st : State) req call now data :
  reachable st → lookupInflight req st = Some (ASignIn call) →
  ∃ st',
    step now (Response req (Fulfilled (TokenBody data))) st = Some st' ∧
    settled st' = settled st ++ [(call, Resolved NoBody)] ∧
    oAuth st' = Some (tokenBundle now data) ∧
    user st' = user st ∧
    isAuthenticated st' = isAuthenticated st ∧
    (isAuthenticated st' = true ↔ user st' ≠ None).
Proof.
  intros Hr Hfind.
  destruct (step_response now req (Fulfilled (TokenBody data)) _ _ Hr Hfind)
    as (cfg & _ & _ & ->).
  rewrite fulfilled_signIn. eexists. split; [done|].
  pose proof (storeToken_fields now data (removeInflight req st))
    as (_ & Ho & Hu & _ & _ & _ & _ & Hs).
  unfold isAuthenticated. simpl. rewrite Ho, Hu, Hs. simpl.
  split_and!; try done. by destruct (user st).
Qed.

(** C8: when a token response arrives for a [signIn] call or for a refresh,
    the bundle stored has expiresAt = now + expires_in * 1000, with now the
    clock reading at that moment, and expiresIn = expires_in. *)
Theorem expiresAt_from_receipt (st : State) req a now data :
  reachable st → lookupInflight req st = Some a →
  (∃ call, a = ASignIn call) ∨ (∃ k, a = ARefresh k) →
  ∃ st' o,
    step now (Response req (Fulfilled (TokenBody data))) st = Some st' ∧
    oAuth st' = Some o ∧
    OAuth.expiresAt o = now + expires_in data * 1000 ∧
    OAuth.expiresIn o = expires_in data ∧
    OAuth.accessToken o = access_token data ∧
    OAuth.refreshToken o = refresh_token data ∧
    OAuth.tokenType o = token_type data.
Proof.
  intros Hr Hfind Ha.
  destruct (step_response now req (Fulfilled (TokenBody data)) _ _ Hr Hfind)
    as (cfg & _ & Hk & ->).
  pose proof (storeToken_fields now data (removeInflight req st))
    as (_ & Ho & _).
  destruct Ha as [[call ->]|[k ->]].
  - rewrite fulfilled_signIn. eexists _, (tokenBundle now data).
    split; [done|]. simpl. by rewrite Ho.
  - destruct (Hk k eq_refl) as [Hok _]. rewrite fulfilled_refresh.
    pose proof (refreshTokenSettled_fields k
                  (fst (storeToken now data (removeInflight req st))) Hok)
      as (Ho' & _).
    eexists _, (tokenBundle now data). split; [done|]. by rewrite Ho', Ho.
Qed.

(** C2 (as the code has it): when the refresh-grant request is rejected, the
    token bundle becomes absent, [onRefreshTokenFailed] is called once when
    it is configured, and nothing is sent again; the user is not written, so
    [isAuthenticated] yields what it yielded before. *)
Theorem refresh_rejected_clears_token (st : State) req k r now :
  reachable st → lookupInflight req st = Some (ARefresh k) →
  isRejection r = true →
  ∃ st',
    step now (Response req r) st = Some st' ∧
    oAuth st' = None ∧
    user st' = user st ∧
    isAuthenticated st' = isAuthenticated st ∧
    refreshFailedCalls st' =
      (if Options.onRefreshTokenFailed options
       then S (refreshFailedCalls st) else refreshFailedCalls st) ∧
    sent st' = sent st ∧
    inflight st' = inflight (removeInflight req st).
Proof.
  intros Hr Hfind Hrej.
  destruct (step_response now req r _ _ Hr Hfind) as (cfg & _ & Hk & ->).
  destruct (Hk k eq_refl) as [Hok Hurl].
  set (st1 := removeInflight req st).
  assert (Hgo : ∀ e, refreshable e st1 = false →
            ∃ st', Some (onRejected (ARefresh k) e st1) = Some st' ∧
              oAuth st' = None ∧ user st' = user st ∧
              isAuthenticated st' = isAuthenticated st ∧
              refreshFailedCalls st' =
                (if Options.onRefreshTokenFailed options
                 then S (refreshFailedCalls st) else refreshFailedCalls st) ∧
              sent st' = sent st ∧ inflight st' = inflight st1).
  { intros e He. rewrite onRejected_propagates, rejected_refresh by done.
    eexists. split; [done|].
    pose proof (refreshTokenSettled_fields k (refreshFailed st1) Hok)
      as (Ho & Hu & Hc & Hrest).
    unfold isAuthenticated. rewrite Ho, Hu, Hc. split_and!; try done.
    - destruct k as [|err a]; [by rewrite Hrest|].
      destruct Hrest as (-> & _). simpl. by rewrite app_nil_r.
    - destruct k as [|err a]; [by rewrite Hrest|].
      simpl. simpl in Hok. destruct a; try done; simpl; done. }
  destruct r as [b|status|message]; [done| |].
  - apply Hgo. by apply token_error_not_refreshable.
  - by apply Hgo.
Qed.


(** ** Rejection of the original call *)

(** C5: when the handler takes a 401 as refreshable, the promise of the
    failing call is settled by a rejection with the error the handler
    received and by nothing else: at once when a refresh is already in
    flight; otherwise the handler waits on the refresh request it sends, and
    whatever the reply to that request is and whenever it comes, the call is
    rejected with that error then.  The replays are requests of their own. *)
Theorem original_call_rejects (st : State) req a call cfg status now :
  reachable st → lookupInflight req st = Some a → promise a = Some call →
  sent st !! req = Some cfg →
  let err := AxiosError status (Some cfg) in
  refreshable err st = true →
  ∃ st1,
    step now (Response req (Failed status)) st = Some st1 ∧
    if isRefreshingToken st
    then settled st1 = settled st ++ [(call, Rejected err)]
    else
      settled st1 = settled st ∧
      lookupInflight (length (sent st)) st1
        = Some (ARefresh (FromInterceptor err a)) ∧
      ∀ (st2 : State) req2 now2 r,
        reachable st2 →
        lookupInflight req2 st2 = Some (ARefresh (FromInterceptor err a)) →
        tokenReply r = true →
        ∃ st3,
          step now2 (Response req2 r) st2 = Some st3 ∧
          settled st3 = settled st2 ++ [(call, Rejected err)].
Proof.
  intros Hr Hfind Hp Hcfg err Href.
  pose proof (promise_isCaller _ _ Hp) as Ha.
  assert (Hrej : rejection a err = [(call, Rejected err)]).
  { unfold rejection. by rewrite Hp. }
  destruct (step_response now req (Failed status) _ _ Hr Hfind)
    as (cfg' & Hl & _ & ->).
  assert (cfg' = cfg) as -> by congruence. fold err.
  eexists. split; [done|].
  destruct (isRefreshingToken st) eqn:Hflag.
  - rewrite onRejected_queued by done.
    pose proof (rejected_caller_fields a err
                  (set_failedRequestsQueue
                     (failedRequestsQueue (removeInflight req st) ++ [retry err])
                     (removeInflight req st)) Ha) as (Hs & _).
    by rewrite Hs, Hrej.
  - destruct (refreshable_oAuth _ _ Href) as [o Ho].
    rewrite (onRejected_start a err o) by done.
    split_and!; [done| |].
    + unfold lookupInflight. simpl. apply findAwaiter_fresh.
      intros id c [_ Hin]%list_elem_of_filter.
      eapply inflight_fresh; [by apply reachable_wf|done].
    + intros st2 req2 now2 r Hr2 Hfind2 Hrep.
      destruct (step_response now2 req2 r _ _ Hr2 Hfind2)
        as (cfg2 & _ & Hk & ->).
      destruct (Hk _ eq_refl) as [Hok Hurl].
      set (st2' := removeInflight req2 st2).
      assert (Hgo : ∀ e, refreshable e st2' = false →
                ∃ st3, Some (onRejected (ARefresh (FromInterceptor err a)) e st2')
                       = Some st3 ∧
                  settled st3 = settled st2 ++ [(call, Rejected err)]).
      { intros e He. rewrite onRejected_propagates, rejected_refresh by done.
        eexists. split; [done|].
        pose proof (refreshTokenSettled_fields _ (refreshFailed st2') Hok)
          as (_ & _ & _ & _ & _ & _ & Hs).
        by rewrite Hs, Hrej. }
      destruct r as [[data|u|]|status'|message]; try done.
      * rewrite fulfilled_refresh. eexists. split; [done|].
        pose proof (storeToken_fields now2 data st2')
          as (_ & _ & _ & _ & _ & _ & _ & Hs1).
        pose proof (refreshTokenSettled_fields _
                      (fst (storeToken now2 data st2')) Hok)
          as (_ & _ & _ & _ & _ & _ & Hs).
        by rewrite Hs, Hs1, Hrej.
      * apply Hgo. by apply token_error_not_refreshable.
      * by apply Hgo.
Qed.

(** ** Two 401 responses, one refresh *)

(** X21: two requests in flight get a 401 one after the other; the first
    arrives while the flag [isRefreshingToken] is down, the second while the
    refresh the first one started is in flight, that is with the flag up.
    The two handlers together send exactly one refresh-grant request and
    queue both requests in arrival order.  When that refresh is answered by
    a token response, the two requests are replayed in that order with the
    new access token (after the request the scheduler may send for the new
    bundle); when it is rejected nothing is replayed; in both cases the
    queue is emptied and the flag reset.  In every reachable state at most
    one refresh started by the interceptor is in flight; refreshes started
    by [setRefreshTokenTimeout] are outside this bound. *)
Theorem two_401_one_refresh (st : State) o r1 r2 a1 a2 cfg1 cfg2 t1 t2 :
  reachable st → oAuth st = Some o → isRefreshingToken st = false →
  lookupInflight r1 st = Some a1 → lookupInflight r2 st = Some a2 → r1 ≠ r2 →
  sent st !! r1 = Some cfg1 → sent st !! r2 = Some cfg2 →
  cfg1 !! "url" ≠ Some (VStr tokenEndpoint) →
  cfg2 !! "url" ≠ Some (VStr tokenEndpoint) →
  let err1 := AxiosError (Some 401) (Some cfg1) in
  let err2 := AxiosError (Some 401) (Some cfg2) in
  let refresh := length (sent st) in
  ∃ st2,
    run [(t1, Response r1 (Failed (Some 401)));
         (t2, Response r2 (Failed (Some 401)))] st = Some st2 ∧
    sent st2 = sent st ++ [refreshGrant o] ∧
    failedRequestsQueue st2 = [retry err1; retry err2] ∧
    isRefreshingToken st2 = true ∧
    lookupInflight refresh st2 = Some (ARefresh (FromInterceptor err1 a1)) ∧
    (∀ t3 data, ∃ st3,
       step t3 (Response refresh (Fulfilled (TokenBody data))) st2 = Some st3 ∧
       sent st3 = sent st2 ++ immediateRefresh t3 data ++
                  [retry err1 (access_token data);
                   retry err2 (access_token data)] ∧
       failedRequestsQueue st3 = [] ∧ isRefreshingToken st3 = false) ∧
    (∀ t3 r, isRejection r = true → ∃ st3,
       step t3 (Response refresh r) st2 = Some st3 ∧
       sent st3 = sent st2 ∧
       failedRequestsQueue st3 = [] ∧ isRefreshingToken st3 = false) ∧
    (∀ s : State, reachable s → (interceptorRefreshesInFlight s ≤ 1)%nat).
Proof.
  intros Hr Ho Hflag Hfind1 Hfind2 Hne Hc1 Hc2 Hu1 Hu2 err1 err2 refresh.
  pose proof (reachable_wf _ Hr) as Hwf.
  destruct (wf_idle _ Hwf Hflag) as [_ Hq].
  (* first 401 *)
  destruct (step_response t1 r1 (Failed (Some 401)) _ _ Hr Hfind1)
    as (c & Hl & _ & Hstep1).
  assert (c = cfg1) as -> by congruence. fold err1 in Hstep1.
  rewrite (onRejected_start a1 err1 o) in Hstep1;
    [|by apply (refreshable_401 cfg1 o)|done..].
  set (st1 := send (refreshGrant o) (ARefresh (FromInterceptor err1 a1)) _)
    in Hstep1.
  pose proof (reachable_step _ _ _ _ Hr Hstep1) as Hr1.
  assert (Hlt2 : (r2 < length (sent st))%nat) by by eapply lookup_lt_Some.
  assert (Hfind2' : lookupInflight r2 st1 = Some a2).
  { unfold lookupInflight. simpl. apply findAwaiter_app.
    by rewrite findAwaiter_remove. }
  (* second 401 *)
  destruct (step_response t2 r2 (Failed (Some 401)) _ _ Hr1 Hfind2')
    as (c & Hl' & Hk2 & Hstep2).
  assert (c = cfg2) as ->.
  { simpl in Hl'. rewrite lookup_app_l in Hl' by done. congruence. }
  fold err2 in Hstep2.
  rewrite onRejected_queued in Hstep2;
    [|by apply (refreshable_401 cfg2 o)|done].
  assert (Ha2 : isCaller a2 = true).
  { destruct a2; try done. by destruct (Hk2 _ eq_refl) as [_ Hurl]. }
  set (st2 := rejected a2 err2 _) in Hstep2.
  pose proof (reachable_step _ _ _ _ Hr1 Hstep2) as Hr2.
  pose proof (rejected_caller_fields a2 err2
                (set_failedRequestsQueue
                   (failedRequestsQueue (removeInflight r2 st1) ++ [retry err2])
                   (removeInflight r2 st1)) Ha2)
    as (_ & Hsent2 & Hin2 & Hq2 & Hf2 & _).
  fold st2 in Hsent2, Hin2, Hq2, Hf2. simpl in Hsent2, Hin2, Hq2, Hf2.
  rewrite Hq in Hq2. simpl in Hq2.
  assert (Hfind3 : lookupInflight refresh st2
                   = Some (ARefresh (FromInterceptor err1 a1))).
  { unfold lookupInflight. rewrite Hin2.
    rewrite findAwaiter_remove by (unfold refresh; lia).
    apply findAwaiter_fresh.
    intros id b [_ Hin]%list_elem_of_filter. by eapply inflight_fresh. }
  exists st2. split_and!; try done.
  - cbn [run]. by rewrite Hstep1, Hstep2.
  - (* the refresh is answered by a token response *)
    intros t3 data.
    destruct (step_response t3 refresh (Fulfilled (TokenBody data)) _ _
                Hr2 Hfind3) as (c & _ & Hk & ->).
    destruct (Hk _ eq_refl) as [Hok _].
    rewrite fulfilled_refresh. eexists. split; [done|].
    set (st2' := removeInflight refresh st2).
    pose proof (storeToken_fields t3 data st2')
      as (_ & Ho3 & _ & _ & Hq3 & Hs3 & _).
    pose proof (refreshTokenSettled_fields _ (fst (storeToken t3 data st2')) Hok)
      as (_ & _ & _ & Hsent & Hq' & Hf' & _).
    split_and!; [|done..].
    rewrite Hsent, Ho3, Hs3, Hq3. subst st2'. simpl.
    by rewrite Hq2, Hsent2, <- !app_assoc.
  - (* the refresh is rejected *)
    intros t3 r Hrej.
    destruct (step_response t3 refresh r _ _ Hr2 Hfind3) as (c & _ & Hk & ->).
    destruct (Hk _ eq_refl) as [Hok Hurl].
    set (st2' := removeInflight refresh st2).
    assert (Hgo : ∀ e, refreshable e st2' = false →
              ∃ st3, Some (onRejected (ARefresh (FromInterceptor err1 a1)) e st2')
                     = Some st3 ∧
                sent st3 = sent st2 ∧ failedRequestsQueue st3 = [] ∧
                isRefreshingToken st3 = false).
    { intros e He. rewrite onRejected_propagates, rejected_refresh by done.
      eexists. split; [done|].
      pose proof (refreshTokenSettled_fields _ (refreshFailed st2') Hok)
        as (_ & _ & _ & Hsent & Hq' & Hf' & _).
      split_and!; [|done..]. rewrite Hsent. simpl. by rewrite app_nil_r. }
    destruct r as [b|status|message]; [done| |].
    + apply Hgo. by apply token_error_not_refreshable.
    + by apply Hgo.
  - intros s Hs. by apply wf_single, reachable_wf.
Qed.

(** ** The second invariant is kept *)

Lemma sh_frame (st st' : State) :
  shaped st →
  inflight st' = inflight st → sent st' = sent st →
  failedRequestsQueue st' = failedRequestsQueue st →
  (shouldRefreshToken = false →
   timers st' = timers st ∧ refreshTokenTimeout st' = refreshTokenTimeout st) →
  shaped st'.
Proof.
  intros [Hi Hs Hq Hm] Hin Hsent Hqueue Ht.
  constructor; rewrite ?Hin, ?Hsent, ?Hqueue; auto.
  intros Hno. destruct (Ht Hno) as [-> ->]. auto.
Qed.

Lemma sh_send cfg a (st : State) :
  shaped st → requestShape a cfg →
  (shouldRefreshToken = false → a ≠ ARefresh FromTimer) →
  shaped (send cfg a st).
Proof.
  intros [Hi Hs Hq Hm] Ha Hno. constructor; simpl; auto.
  - rewrite fmap_app. apply NoDup_app. split_and!; [done| |apply NoDup_singleton].
    intros id [[id' b] [-> Hin]]%list_elem_of_fmap Hlen. simpl in Hlen.
    apply list_elem_of_singleton in Hlen.
    destruct (Hs id' b Hin) as (cfg' & Hl & _). apply lookup_lt_Some in Hl. lia.
  - intros id b [Hin|Hin]%elem_of_app.
    + destruct (Hs id b Hin) as (cfg' & Hl & Hshape). exists cfg'.
      split; [|done]. rewrite lookup_app_l; [done|]. by eapply lookup_lt_Some.
    + apply list_elem_of_singleton in Hin. injection Hin as -> ->.
      exists cfg. split; [|done]. by rewrite list_lookup_middle.
  - intros Hoff. destruct (Hm Hoff) as (Ht & Hv & Hf). split_and!; [done..|].
    intros id [Hin|Hin]%elem_of_app; [by eapply Hf|].
    apply list_elem_of_singleton in Hin. injection Hin as _ Heq.
    by apply (Hno Hoff).
Qed.

Lemma sh_clearTimeout id (st : State) : shaped st → shaped (clearTimeout id st).
Proof.
  intros Hsh. apply (sh_frame st); try done.
  intros Hoff. destruct (sh_manual _ Hsh Hoff) as (Ht & _). simpl.
  by rewrite Ht.
Qed.

Lemma sh_refreshToken k (st : State) :
  shaped st → (shouldRefreshToken = false → k ≠ FromTimer) →
  shaped (fst (refreshToken k st)).
Proof.
  intros Hsh Hk. unfold refreshToken. destruct (oAuth st) as [o|]; [|done].
  simpl. apply sh_send; [done|by exists o|].
  intros Hoff [= ->]. by apply Hk.
Qed.

Lemma sh_setRefreshTokenTimeout now (st : State) :
  shouldRefreshToken = true → shaped st →
  shaped (fst (setRefreshTokenTimeout now st)).
Proof.
  intros Hon Hsh. unfold setRefreshTokenTimeout.
  set (st1 := match refreshTokenTimeout st with
              | Some id => clearTimeout id st
              | None => st
              end).
  assert (H1 : shaped st1).
  { subst st1. destruct (refreshTokenTimeout st); [by apply sh_clearTimeout|done]. }
  destruct (oAuth st1) as [o|]; [|done]. case (0 <? _); simpl.
  - apply (sh_frame st1); try done. congruence.
  - apply sh_refreshToken; [done|congruence].
Qed.

Lemma sh_storeToken now data (st : State) :
  shaped st → shaped (fst (storeToken now data st)).
Proof.
  intros Hsh. unfold storeToken. destruct shouldRefreshToken eqn:Hon.
  - apply sh_setRefreshTokenTimeout; [done|]. by apply (sh_frame st).
  - by apply (sh_frame st).
Qed.

Lemma sh_refreshFailed (st : State) : shaped st → shaped (refreshFailed st).
Proof. intros Hsh. by apply (sh_frame st). Qed.

Lemma sh_settle call o (st : State) : shaped st → shaped (settle call o st).
Proof. intros Hsh. by apply (sh_frame st). Qed.

Lemma sh_signOut (st : State) : shaped st → shaped (signOut st).
Proof.
  intros Hsh. rewrite signOut_eq. apply (sh_frame st); try done.
  intros Hoff. destruct (sh_manual _ Hsh Hoff) as (Ht & Hv & _). simpl.
  by rewrite Hv.
Qed.

Lemma sh_foldl_send accessToken (q : list (string → Config)) (st : State) :
  shaped st →
  (∀ f, f ∈ q → ∃ err, f = retry err ∧ urlIsTokenEndpoint err = false) →
  shaped (foldl (λ s request, send (request accessToken) AReplay s) st q).
Proof.
  revert st. induction q as [|f q IH]; intros st Hsh Hq; [done|].
  simpl. apply IH.
  - apply sh_send; [done| |done].
    destruct (Hq f) as (err & -> & Hu); [apply list_elem_of_here|].
    by exists err, accessToken.
  - intros g Hg. apply Hq. by apply list_elem_of_further.
Qed.

Lemma sh_processQueue accessToken (st : State) :
  shaped st → shaped (processQueue accessToken st).
Proof. intros Hsh. apply sh_foldl_send; [done|apply Hsh]. Qed.

Lemma sh_clearQueue (st : State) : shaped st → shaped (clearQueue st).
Proof.
  intros [Hi Hs Hq Hm]. constructor; simpl; auto.
  by intros f Hf%elem_of_nil.
Qed.

Lemma sh_rejected_caller a err (st : State) :
  isCaller a = true → shaped st → shaped (rejected a err st).
Proof. destruct a; try done; intros _ Hsh; simpl; by apply sh_settle. Qed.

Lemma sh_refreshTokenSettled k (st : State) :
  callerOk k = true → shaped st → shaped (refreshTokenSettled k st).
Proof.
  destruct k as [|err orig]; [done|]. simpl. intros Hok Hsh.
  apply sh_rejected_caller; [done|]. apply sh_clearQueue.
  destruct (oAuth st); [by apply sh_processQueue|done].
Qed.

Lemma sh_rejected a err (st : State) :
  (∀ k, a = ARefresh k → callerOk k = true) →
  shaped st → shaped (rejected a err st).
Proof.
  intros Hk Hsh. destruct a as [call|call|call|call| |k];
    try (by apply sh_rejected_caller).
  rewrite rejected_refresh. apply sh_refreshTokenSettled; [by apply Hk|].
  by apply sh_refreshFailed.
Qed.

Lemma refreshable_url err (st : State) :
  refreshable err st = true →
  errStatus err = Some 401 ∧ urlIsTokenEndpoint err = false.
Proof.
  unfold refreshable, statusIs401. destruct err as [status config|]; [|done].
  destruct (urlIsTokenEndpoint _); [by rewrite orb_true_r|].
  destruct (errStatus _) as [s|]; [|done].
  destruct (Z.eqb_spec s 401) as [->|]; done.
Qed.

Lemma sh_onRejected a err (st : State) :
  (∀ k, a = ARefresh k → refreshable err st = false ∧ callerOk k = true) →
  shaped st → shaped (onRejected a err st).
Proof.
  intros Hk Hsh. unfold onRejected.
  destruct (refreshable err st) eqn:Href.
  - assert (Ha : isCaller a = true).
    { destruct a; try done. by destruct (Hk _ eq_refl). }
    destruct (refreshable_url _ _ Href) as [_ Hurl].
    assert (Hpush : shaped (set_failedRequestsQueue
                              (failedRequestsQueue st ++ [retry err]) st)).
    { destruct Hsh as [Hi Hs Hq Hm]. constructor; simpl; auto.
      intros f [Hf|Hf]%elem_of_app; [by apply Hq|].
      apply list_elem_of_singleton in Hf as ->. by exists err. }
    simpl. destruct (isRefreshingToken st).
    + by apply sh_rejected_caller.
    + unfold refreshToken. simpl. destruct (oAuth st) as [o|].
      * apply sh_send; [|by exists o|done].
        by apply (sh_frame (set_failedRequestsQueue
                              (failedRequestsQueue st ++ [retry err]) st)).
      * apply sh_rejected_caller; [done|]. apply sh_clearQueue.
        by apply (sh_frame (set_failedRequestsQueue
                              (failedRequestsQueue st ++ [retry err]) st)).
  - apply sh_rejected; [|done]. intros k Hak. by destruct (Hk k Hak).
Qed.

Lemma sh_fulfilled now a b (st st' : State) :
  (∀ k, a = ARefresh k → callerOk k = true) →
  shaped st → fulfilled now a b st = Some st' → shaped st'.
Proof.
  intros Hk Hsh. destruct a as [call|call|call|call| |k].
  - destruct b as [data|u|]; [|done..]. rewrite fulfilled_signIn.
    intros [= <-]. by apply sh_settle, sh_storeToken.
  - intros [= <-]. by apply sh_settle.
  - destruct b as [data|u|]; [done| |done]. intros [= <-].
    apply sh_settle. by apply (sh_frame st).
  - intros [= <-]. by apply sh_settle.
  - by intros [= <-].
  - destruct b as [data|u|]; [|done..]. rewrite fulfilled_refresh.
    intros [= <-]. apply sh_refreshTokenSettled; [by apply Hk|].
    by apply sh_storeToken.
Qed.

Lemma NoDup_ids_remove req (l : list (nat * Awaiter)) :
  NoDup l.*1 → NoDup (filter (λ p, p.1 ≠ req) l).*1.
Proof.
  induction l as [|[i a] l IH]; [done|].
  rewrite fmap_cons, NoDup_cons. simpl. intros [Hi Hl].
  rewrite filter_cons. case_decide; [|by apply IH].
  rewrite fmap_cons, NoDup_cons. split; [|by apply IH].
  intros [[j b] [Hj [_ Hin]%list_elem_of_filter]]%list_elem_of_fmap.
  simpl in Hj. subst j. apply Hi. apply list_elem_of_fmap. by exists (i, b).
Qed.

Lemma sh_removeInflight req (st : State) :
  shaped st → shaped (removeInflight req st).
Proof.
  intros [Hi Hs Hq Hm]. constructor; simpl; auto.
  - by apply NoDup_ids_remove.
  - intros id a [_ Hin]%list_elem_of_filter. by apply Hs.
  - intros Hoff. destruct (Hm Hoff) as (Ht & Hv & Hf). split_and!; [done..|].
    intros id [_ Hin]%list_elem_of_filter. by eapply Hf.
Qed.

Lemma sh_step now ev (st st' : State) :
  wf st → shaped st → step now ev st = Some st' → shaped st'.
Proof.
  intros Hwf Hsh.
  destruct ev as [call email password| |call|call|call cfg|id|req r]; simpl.
  - intros [= <-]. apply sh_send; [done|by exists email, password|done].
  - intros [= <-]. by apply sh_signOut.
  - intros [= <-]. unfold revoke. destruct (oAuth st) as [o|]; simpl.
    + apply sh_send; [done|by exists o|done].
    + by apply sh_settle.
  - intros [= <-]. unfold getUser. destruct (oAuth st) as [o|]; simpl.
    + by apply sh_send.
    + by apply sh_settle.
  - intros [= <-]. by apply sh_send.
  - case_bool_decide as Hid; [|done]. intros [= <-].
    apply sh_refreshToken; [by apply sh_clearTimeout|].
    intros Hoff. destruct (sh_manual _ Hsh Hoff) as (Ht & _).
    rewrite Ht in Hid. by apply elem_of_nil in Hid.
  - destruct (lookupInflight req st) as [a|] eqn:Hfind; [|done].
    destruct (sent st !! req) as [cfg|] eqn:Hcfg; [|done].
    assert (Hk : ∀ k, a = ARefresh k → tokenUrl cfg ∧ callerOk k = true).
    { intros k ->. apply findAwaiter_elem in Hfind as Hin.
      destruct (wf_inflight _ Hwf req _ Hin) as (cfg' & Hl & Hu).
      assert (cfg' = cfg) as -> by congruence.
      by destruct (Hu k eq_refl). }
    pose proof (sh_removeInflight req st Hsh) as Hsh1.
    destruct r as [b|status|message].
    + apply sh_fulfilled; [|done]. intros k Hak. by destruct (Hk k Hak).
    + intros [= <-]. apply sh_onRejected; [|done]. intros k Hak.
      destruct (Hk k Hak) as [Hu Hok].
      split; [by apply token_error_not_refreshable|done].
    + intros [= <-]. apply sh_onRejected; [|done]. intros k Hak.
      by destruct (Hk k Hak).
Qed.

Lemma sh_initial stored : shaped (initial stored).
Proof.
  constructor; simpl.
  - apply NoDup_nil_2.
  - by intros id a Hin%elem_of_nil.
  - by intros f Hin%elem_of_nil.
  - intros _. split_and!; [done..|]. by intros id Hin%elem_of_nil.
Qed.

Lemma sh_useAuth now stored : shaped (useAuth now stored).
Proof.
  unfold useAuth. destruct stored; [|apply sh_initial].
  destruct shouldRefreshToken eqn:Hon; [|apply sh_initial].
  apply sh_setRefreshTokenTimeout; [done|apply sh_initial].
Qed.

Lemma reachable_shaped (st : State) : reachable st → shaped st.
Proof.
  induction 1 as [now stored|st now ev st' Hr IH Hstep].
  - apply sh_useAuth.
  - eapply sh_step; [by apply reachable_wf|done..].
Qed.

(** ** The flag and the refresh of the interceptor *)

Lemma filter_other_ids req (l : list (nat * Awaiter)) :
  req ∉ l.*1 → filter (λ p, p.1 ≠ req) l = l.
Proof.
  induction l as [|[i a] l IH]; [done|].
  rewrite fmap_cons, not_elem_of_cons. simpl. intros [Hne Hl].
  rewrite filter_cons, decide_True by done. by rewrite IH.
Qed.

Lemma count_remove_other (P : nat * Awaiter → bool) req a
    (l : list (nat * Awaiter)) :
  (∀ i j b, P (i, b) = P (j, b)) →
  NoDup l.*1 → findAwaiter req l = Some a → P (req, a) = false →
  length (List.filter P (filter (λ p, p.1 ≠ req) l)) = length (List.filter P l).
Proof.
  intros HP. induction l as [|[i b] l IH]; [done|].
  rewrite fmap_cons, NoDup_cons. simpl. intros [Hi Hl].
  rewrite filter_cons. simpl. destruct (Nat.eqb_spec i req) as [->|Hne].
  - intros [= ->] Ha. rewrite Ha, decide_False by (intros H; by apply H).
    by rewrite filter_other_ids.
  - intros Hfind Ha. rewrite decide_True by done. simpl.
    specialize (IH Hl Hfind Ha). destruct (P (i, b)); simpl; lia.
Qed.

Lemma flagged_eq (st st' : State) :
  isRefreshingToken st' = isRefreshingToken st →
  interceptorRefreshesInFlight st' = interceptorRefreshesInFlight st →
  flagged st → flagged st'.
Proof. unfold flagged. intros -> ->. done. Qed.

Lemma flagged_keeps (st st' : State) : keeps st st' → flagged st → flagged st'.
Proof. intros (_ & Hf & _ & Hc). by apply flagged_eq. Qed.

Lemma flagged_down (st : State) : isRefreshingToken st = false → flagged st.
Proof. unfold flagged. congruence. Qed.

Lemma keeps_fulfilled now a b (st st' : State) :
  isInterceptorRefresh (0%nat, a) = false →
  fulfilled now a b st = Some st' → keeps st st'.
Proof.
  intros Ha. destruct a as [call|call|call|call| |[|err orig]]; try done.
  - destruct b as [data|u|]; [|done..]. rewrite fulfilled_signIn.
    intros [= <-]. eapply keeps_trans; [apply keeps_storeToken|apply keeps_settle].
  - intros [= <-]. apply keeps_settle.
  - destruct b as [data|u|]; [done| |done]. intros [= <-].
    eapply keeps_trans; [|apply keeps_settle]. by apply keeps_frame.
  - intros [= <-]. apply keeps_settle.
  - intros [= <-]. apply keeps_refl.
  - destruct b as [data|u|]; [|done..]. rewrite fulfilled_refresh.
    intros [= <-]. apply keeps_storeToken.
Qed.

Lemma flagged_onRejected a err (st : State) :
  wf st → isInterceptorRefresh (0%nat, a) = false →
  (∀ k, a = ARefresh k → refreshable err st = false) →
  flagged st → flagged (onRejected a err st).
Proof.
  intros Hwf Ha Hk Hfl. unfold onRejected.
  destruct (refreshable err st) eqn:Href.
  - assert (Hc : isCaller a = true).
    { destruct a; try done. by specialize (Hk _ eq_refl). }
    simpl. destruct (isRefreshingToken st) eqn:Hflag.
    + pose proof (rejected_caller_fields a err
                    (set_failedRequestsQueue
                       (failedRequestsQueue st ++ [retry err]) st) Hc)
        as (_ & _ & Hin & _ & Hf & _).
      apply (flagged_eq st); [done| |done].
      unfold interceptorRefreshesInFlight. by rewrite Hin.
    + destruct (wf_idle _ Hwf Hflag) as [Hcount _].
      unfold refreshToken. simpl. destruct (oAuth st) as [o|].
      * intros _. unfold interceptorRefreshesInFlight in *. simpl.
        rewrite List.filter_app, length_app, Hcount. done.
      * apply flagged_down.
        by pose proof (rejected_caller_fields a err
                         (clearQueue
                            (set_isRefreshingToken true
                               (set_failedRequestsQueue
                                  (failedRequestsQueue st ++ [retry err]) st)))
                         Hc) as (_ & _ & _ & _ & -> & _).
  - by destruct a as [call|call|call|call| |[|e orig]].
Qed.

Lemma flagged_step now ev (st st' : State) :
  wf st → shaped st → flagged st → step now ev st = Some st' → flagged st'.
Proof.
  intros Hwf Hsh Hfl.
  destruct ev as [call email password| |call|call|call cfg|id|req r]; simpl.
  - intros [= <-]. eapply flagged_keeps; [by apply keeps_send|done].
  - intros [= <-]. eapply flagged_keeps; [apply keeps_signOut|done].
  - intros [= <-]. unfold revoke. destruct (oAuth st); simpl.
    + eapply flagged_keeps; [by apply keeps_send|done].
    + eapply flagged_keeps; [apply keeps_settle|done].
  - intros [= <-]. unfold getUser. destruct (oAuth st); simpl.
    + eapply flagged_keeps; [by apply keeps_send|done].
    + eapply flagged_keeps; [apply keeps_settle|done].
  - intros [= <-]. eapply flagged_keeps; [by apply keeps_send|done].
  - case_bool_decide; [|done]. intros [= <-].
    eapply flagged_keeps; [|done].
    eapply keeps_trans; [apply keeps_clearTimeout|apply keeps_refreshToken_timer].
  - destruct (lookupInflight req st) as [a|] eqn:Hfind; [|done].
    destruct (sent st !! req) as [cfg|] eqn:Hcfg; [|done].
    apply findAwaiter_elem in Hfind as Hin.
    destruct (wf_inflight _ Hwf req _ Hin) as (cfg' & Hl & Hu).
    assert (cfg' = cfg) as -> by congruence.
    pose proof (wf_removeInflight req st Hwf) as Hwf1.
    destruct (isInterceptorRefresh (0%nat, a)) eqn:Ha.
    + (* the reply to the refresh of the interceptor: the flag goes down *)
      destruct a as [| | | | |[|err orig]]; try done.
      destruct (Hu _ eq_refl) as [Hok Hurl].
      assert (Hdown : ∀ s : State,
                flagged (refreshTokenSettled (FromInterceptor err orig) s)).
      { intros s. apply flagged_down.
        by pose proof (refreshTokenSettled_fields _ s Hok)
          as (_ & _ & _ & _ & _ & -> & _). }
      destruct r as [b|status|message].
      * destruct b as [data|u|]; [|done..]. rewrite fulfilled_refresh.
        intros [= <-]. apply Hdown.
      * intros [= <-].
        rewrite onRejected_propagates, rejected_refresh
          by by apply token_error_not_refreshable.
        apply Hdown.
      * intros [= <-]. rewrite onRejected_propagates, rejected_refresh by done.
        apply Hdown.
    + assert (Hfl1 : flagged (removeInflight req st)).
      { apply (flagged_eq st); [done| |done].
        unfold interceptorRefreshesInFlight. simpl.
        by apply (count_remove_other _ req a);
          [apply interceptor_refresh_id|apply Hsh|..]. }
      destruct r as [b|status|message].
      * intros Hful. eapply flagged_keeps; [by eapply keeps_fulfilled|done].
      * intros [= <-]. apply flagged_onRejected; try done.
        intros k ->. apply token_error_not_refreshable. by apply (Hu k).
      * intros [= <-]. by apply flagged_onRejected.
Qed.

Lemma flagged_useAuth now stored : flagged (useAuth now stored).
Proof.
  unfold useAuth. destruct stored; [|by apply flagged_down].
  destruct shouldRefreshToken; [|by apply flagged_down].
  eapply flagged_keeps; [apply keeps_setRefreshTokenTimeout|].
  by apply flagged_down.
Qed.

Lemma reachable_flagged (st : State) : reachable st → flagged st.
Proof.
  induction 1 as [now stored|st now ev st' Hr IH Hstep].
  - apply flagged_useAuth.
  - eapply flagged_step; [by apply reachable_wf|by apply reachable_shaped|done..].
Qed.

(** ** Promises are settled once *)

Lemma bal_frame c (st st' : State) :
  settled st' = settled st → inflight st' = inflight st →
  balance c st' = balance c st.
Proof. unfold balance, settledFor, pendingFor. by intros -> ->. Qed.

Lemma bal_send c cfg a (st : State) :
  balance c (send cfg a st) = (balance c st + owed c a)%nat.
Proof.
  unfold balance, settledFor, pendingFor. simpl.
  rewrite sum_list_with_app. simpl. lia.
Qed.

Lemma bal_settle c call o (st : State) :
  balance c (settle call o st)
  = (balance c st + if Nat.eqb call c then 1 else 0)%nat.
Proof.
  unfold balance, settledFor, pendingFor. simpl.
  rewrite sum_list_with_app. simpl. lia.
Qed.

Lemma bal_storeToken c now data (st : State) :
  balance c (fst (storeToken now data st)) = balance c st.
Proof.
  unfold storeToken, setRefreshTokenTimeout, refreshToken.
  destruct shouldRefreshToken; simpl; [|done].
  destruct (refreshTokenTimeout st); simpl; case (0 <? _); simpl;
    rewrite ?bal_send; simpl; rewrite ?Nat.add_0_r; by apply bal_frame.
Qed.

Lemma replays_owe_nothing c (ids : list nat) :
  sum_list_with (λ p : nat * Awaiter, owed c p.2)
    (map (λ i, (i, AReplay)) ids) = 0%nat.
Proof. induction ids as [|i ids IH]; [done|]. simpl. by rewrite IH. Qed.

Lemma bal_processQueue c accessToken (st : State) :
  balance c (processQueue accessToken st) = balance c st.
Proof.
  rewrite processQueue_eq. unfold balance, settledFor, pendingFor. simpl.
  rewrite sum_list_with_app, replays_owe_nothing. lia.
Qed.

Lemma bal_rejected_caller c a err (st : State) :
  isCaller a = true →
  balance c (rejected a err st) = (balance c st + owed c a)%nat.
Proof.
  destruct a; try done; intros _; simpl; rewrite ?bal_settle; done.
Qed.

Lemma bal_refreshTokenSettled c k (st : State) :
  callerOk k = true →
  balance c (refreshTokenSettled k st)
  = (balance c st + owedAfterRefresh c k)%nat.
Proof.
  destruct k as [|err orig]; simpl; [lia|]. intros Hok.
  rewrite bal_rejected_caller by done. f_equal.
  destruct (oAuth st).
  - rewrite <- (bal_processQueue c (OAuth.accessToken t) st).
    by apply bal_frame.
  - by apply bal_frame.
Qed.

Lemma bal_rejected c a err (st : State) :
  (∀ k, a = ARefresh k → callerOk k = true) →
  balance c (rejected a err st) = (balance c st + owed c a)%nat.
Proof.
  intros Hk. destruct a as [call|call|call|call| |k];
    try (by apply bal_rejected_caller).
  by rewrite rejected_refresh, bal_refreshTokenSettled by by apply Hk.
Qed.

Lemma bal_onRejected c a err (st : State) :
  (∀ k, a = ARefresh k → refreshable err st = false ∧ callerOk k = true) →
  balance c (onRejected a err st) = (balance c st + owed c a)%nat.
Proof.
  intros Hk. unfold onRejected. destruct (refreshable err st) eqn:Href.
  - assert (Ha : isCaller a = true).
    { destruct a; try done. by destruct (Hk _ eq_refl). }
    simpl. destruct (isRefreshingToken st).
    + by rewrite bal_rejected_caller by done.
    + unfold refreshToken. simpl. destruct (oAuth st) as [o|].
      * by rewrite bal_send.
      * by rewrite bal_rejected_caller by done.
  - apply bal_rejected. intros k Hak. by destruct (Hk k Hak).
Qed.

Lemma bal_fulfilled c now a b (st st' : State) :
  (∀ k, a = ARefresh k → callerOk k = true) →
  fulfilled now a b st = Some st' →
  balance c st' = (balance c st + owed c a)%nat.
Proof.
  intros Hk. destruct a as [call|call|call|call| |k].
  - destruct b as [data|u|]; [|done..]. rewrite fulfilled_signIn.
    intros [= <-]. by rewrite bal_settle, bal_storeToken.
  - intros [= <-]. by rewrite bal_settle.
  - destruct b as [data|u|]; [done| |done]. intros [= <-].
    by rewrite bal_settle.
  - intros [= <-]. by rewrite bal_settle.
  - intros [= <-]. simpl. lia.
  - destruct b as [data|u|]; [|done..]. rewrite fulfilled_refresh.
    intros [= <-].
    by rewrite bal_refreshTokenSettled, bal_storeToken by by apply Hk.
Qed.

Lemma owed_remove c req a (l : list (nat * Awaiter)) :
  NoDup l.*1 → findAwaiter req l = Some a →
  (sum_list_with (λ p, owed c p.2) (filter (λ p, p.1 ≠ req) l) + owed c a
   = sum_list_with (λ p, owed c p.2) l)%nat.
Proof.
  induction l as [|[i b] l IH]; [done|].
  rewrite fmap_cons, NoDup_cons. simpl. intros [Hi Hl].
  rewrite filter_cons. simpl. destruct (Nat.eqb_spec i req) as [->|Hne].
  - intros [= ->]. rewrite decide_False by (intros H; by apply H).
    rewrite filter_other_ids by done. lia.
  - intros Hfind. rewrite decide_True by done. simpl.
    specialize (IH Hl Hfind). lia.
Qed.

Lemma bal_removeInflight c req a (st : State) :
  shaped st → lookupInflight req st = Some a →
  (balance c (removeInflight req st) + owed c a = balance c st)%nat.
Proof.
  intros Hsh Hfind. unfold balance, settledFor, pendingFor. simpl.
  pose proof (owed_remove c req a (inflight st) (sh_ids _ Hsh) Hfind). lia.
Qed.

Lemma bal_step c now ev (st st' : State) :
  wf st → shaped st → step now ev st = Some st' →
  balance c st' = (balance c st + created c ev)%nat.
Proof.
  intros Hwf Hsh.
  destruct ev as [call email password| |call|call|call cfg|id|req r]; simpl.
  - intros [= <-]. apply bal_send.
  - intros [= <-]. rewrite Nat.add_0_r. rewrite signOut_eq. by apply bal_frame.
  - intros [= <-]. unfold revoke. destruct (oAuth st); simpl.
    + apply bal_send.
    + apply bal_settle.
  - intros [= <-]. unfold getUser. destruct (oAuth st); simpl.
    + apply bal_send.
    + apply bal_settle.
  - intros [= <-]. apply bal_send.
  - case_bool_decide; [|done]. intros [= <-]. rewrite Nat.add_0_r.
    unfold refreshToken. simpl. destruct (oAuth st); simpl.
    + rewrite bal_send. simpl. rewrite Nat.add_0_r. by apply bal_frame.
    + by apply bal_frame.
  - destruct (lookupInflight req st) as [a|] eqn:Hfind; [|done].
    destruct (sent st !! req) as [cfg|] eqn:Hcfg; [|done].
    apply findAwaiter_elem in Hfind as Hin.
    destruct (wf_inflight _ Hwf req _ Hin) as (cfg' & Hl & Hu).
    assert (cfg' = cfg) as -> by congruence.
    pose proof (bal_removeInflight c req a st Hsh Hfind) as Hrem.
    rewrite Nat.add_0_r. destruct r as [b|status|message].
    + intros Hful. apply (bal_fulfilled c) in Hful; [lia|].
      intros k Hak. by destruct (Hu k Hak).
    + intros [= <-]. rewrite bal_onRejected; [lia|]. intros k Hak.
      destruct (Hu k Hak) as [Hok Hurl].
      split; [by apply token_error_not_refreshable|done].
    + intros [= <-]. rewrite bal_onRejected; [lia|]. intros k Hak.
      by destruct (Hu k Hak).
Qed.

Lemma bal_useAuth c now stored : balance c (useAuth now stored) = 0%nat.
Proof.
  unfold useAuth. destruct stored as [o|]; [|done].
  destruct shouldRefreshToken; [|done].
  unfold setRefreshTokenTimeout, refreshToken. simpl. by case (0 <? _).
Qed.

Lemma bal_run c evs (st st' : State) :
  reachable st → run evs st = Some st' →
  balance c st' = (balance c st + createdBy c evs)%nat.
Proof.
  revert st. induction evs as [|[now ev] evs IH]; intros st Hr; simpl.
  - intros [= <-]. unfold createdBy. simpl. lia.
  - destruct (step now ev st) as [st1|] eqn:Hstep; [|done]. intros Hrun.
    rewrite (IH st1 (reachable_step _ _ _ _ Hr Hstep) Hrun).
    rewrite (bal_step c now ev st st1);
      [|by apply reachable_wf|by apply reachable_shaped|done].
    unfold createdBy. simpl. lia.
Qed.

(** ** Further properties of the reachable states *)

(** X1: in every reachable state the flag [isRefreshingToken] is up exactly
    when one refresh started by the interceptor awaits its reply, and while
    it is down the queue of failed requests is empty. *)
Theorem flag_tracks_interceptor_refresh (st : State) :
  reachable st →
  (isRefreshingToken st = true ↔ interceptorRefreshesInFlight st = 1%nat) ∧
  (isRefreshingToken st = false →
   interceptorRefreshesInFlight st = 0%nat ∧ failedRequestsQueue st = []).
Proof.
  intros Hr. pose proof (reachable_wf _ Hr) as Hwf.
  pose proof (reachable_flagged _ Hr) as Hfl.
  split; [|apply Hwf]. split; [apply Hfl|].
  intros Hone. destruct (isRefreshingToken st) eqn:Hflag; [done|].
  destruct (wf_idle _ Hwf Hflag) as [Hzero _]. lia.
Qed.

Lemma refreshes_of_interceptor (l : list (nat * Awaiter)) :
  (∀ id, (id, ARefresh FromTimer) ∉ l) →
  List.filter isRefresh l = List.filter isInterceptorRefresh l.
Proof.
  induction l as [|[i a] l IH]; [done|]. intros Hno. simpl.
  rewrite IH by (intros id Hin; apply (Hno id); by apply list_elem_of_further).
  destruct a as [| | | | |[|err orig]]; try done.
  exfalso. apply (Hno i), list_elem_of_here.
Qed.

(** X2: when auto-refresh is off ([autoRefreshAccessToken] absent or
    [false]), no reachable state has a timeout outstanding or a handle in
    [refreshTokenTimeout], every refresh in flight was started by the
    interceptor, and so at most one refresh-grant request is in flight. *)
Theorem no_scheduler_without_autoRefresh (st : State) :
  shouldRefreshToken = false → reachable st →
  timers st = [] ∧ refreshTokenTimeout st = None ∧
  refreshesInFlight st = interceptorRefreshesInFlight st ∧
  (refreshesInFlight st ≤ 1)%nat.
Proof.
  intros Hoff Hr.
  destruct (sh_manual _ (reachable_shaped _ Hr) Hoff) as (Ht & Hv & Hno).
  assert (Heq : refreshesInFlight st = interceptorRefreshesInFlight st).
  { unfold refreshesInFlight, interceptorRefreshesInFlight.
    by rewrite refreshes_of_interceptor. }
  split_and!; [done..|]. rewrite Heq. by apply wf_single, reachable_wf.
Qed.

(** X3: along every run from the start-up state, for each label the number
    of promises settled plus the number still owed by the requests in flight
    equals the number of calls made with that label: no promise is settled
    twice and none is dropped. *)
Theorem promises_settled_once now stored evs (st : State) c :
  run evs (useAuth now stored) = Some st →
  (settledFor c st + pendingFor c st)%nat = createdBy c evs ∧
  (settledFor c st ≤ createdBy c evs)%nat.
Proof.
  intros Hrun.
  pose proof (bal_run c evs _ _ (reachable_useAuth now stored) Hrun) as Hb.
  rewrite bal_useAuth in Hb. unfold balance in Hb. lia.
Qed.

Lemma retry_url err accessToken : retry err accessToken !! "url" = errUrl err.
Proof.
  unfold retry, errUrl. rewrite lookup_insert_ne by done.
  by destruct (errConfig err).
Qed.

Lemma retry_headers err accessToken :
  retry err accessToken !! "headers" =
  Some (VHeaders (<["Authorization" := "Bearer " +:+ accessToken]>
                    (originalHeaders err))).
Proof. unfold retry. by rewrite lookup_insert_eq. Qed.

(** X4: in every reachable state a request in flight that [processQueue]
    sent is a [retry] of a failed request: its URL is not the token
    endpoint, and its Authorization header is 'Bearer ' followed by the
    access token it was replayed with. *)
Theorem replays_avoid_token_endpoint (st : State) req :
  reachable st → lookupInflight req st = Some AReplay →
  ∃ cfg accessToken headers,
    sent st !! req = Some cfg ∧
    cfg !! "url" ≠ Some (VStr tokenEndpoint) ∧
    cfg !! "headers" = Some (VHeaders headers) ∧
    headers !! "Authorization" = Some ("Bearer " +:+ accessToken).
Proof.
  intros Hr Hfind. apply findAwaiter_elem in Hfind.
  destruct (sh_shape _ (reachable_shaped _ Hr) req _ Hfind)
    as (cfg & Hl & err & accessToken & -> & Hu).
  eexists _, accessToken, _. split_and!; [done| |apply retry_headers|].
  - rewrite retry_url. unfold urlIsTokenEndpoint in Hu.
    destruct (errUrl err) as [[url| |]|]; try done.
    intros [= ->]. by rewrite String.eqb_refl in Hu.
  - apply lookup_insert_eq.
Qed.

(** ** The requests that are sent *)

(** X5: whatever [extraParams] holds, a token request has the URL
    '/oauth/token', the method POST, the form body, the form content type
    and the configured base URL; every other key of [extraParams] is passed
    on unchanged. *)
Theorem tokenRequest_fixed_fields params (key : string) :
  tokenRequest params !! key =
    if decide ("baseURL" = key)
    then Some (VStr (Options.baseURL options))
    else if decide ("headers" = key)
    then Some (VHeaders
                 {["Content-Type" := "application/x-www-form-urlencoded"]})
    else if decide ("data" = key) then Some (VParams params)
    else if decide ("method" = key) then Some (VStr "POST")
    else if decide ("url" = key) then Some (VStr "/oauth/token")
    else VStr <$> (default ∅ (Options.extraParams options) !! key).
Proof.
  unfold tokenRequest. rewrite !lookup_insert.
  repeat (case_decide; [done|]). apply lookup_fmap.
Qed.

(** X6: the closure the interceptor queues replays the failed request as it
    was, except for its headers, which are the original ones with
    Authorization set to 'Bearer ' and the token given (the value the
    [watch] gives the default header for a bundle with that token).
    Replaying a replay with another token is replaying the original request
    with that token. *)
Theorem retry_replays_original status cfg accessToken accessToken' o
    (key header : string) :
  let err := AxiosError status (Some cfg) in
  let headers := <["Authorization" := "Bearer " +:+ accessToken]>
                   (originalHeaders err) in
  retry err accessToken !! key =
    (if decide ("headers" = key) then Some (VHeaders headers)
     else cfg !! key) ∧
  headers !! header =
    (if decide ("Authorization" = header)
     then Some ("Bearer " +:+ accessToken)
     else originalHeaders err !! header) ∧
  retry err (OAuth.accessToken o) !! "headers" =
    Some (VHeaders (<["Authorization" := defaultAuthorization (Some o)]>
                      (originalHeaders err))) ∧
  retry (AxiosError status (Some (retry err accessToken))) accessToken'
  = retry err accessToken'.
Proof.
  intros err headers. split_and!.
  - unfold retry. simpl. apply lookup_insert.
  - apply lookup_insert.
  - apply retry_headers.
  - unfold retry at 1. unfold originalHeaders at 1. simpl.
    rewrite retry_headers. unfold retry. simpl.
    by rewrite !insert_insert_eq.
Qed.

(** ** Start-up *)

(** X7: the state the factory leaves.  Nobody is signed in as a user and
    the token bundle is the stored one.  Without a stored bundle, or without
    auto-refresh, nothing is scheduled and nothing is sent.  With both, one
    timeout is set when the stored expiry lies beyond the pre-fetch window,
    and otherwise a refresh-grant request with the stored refresh token is
    sent at once. *)
Theorem useAuth_startup now stored :
  let st : State := useAuth now stored in
  user st = None ∧ isAuthenticated st = false ∧ oAuth st = stored ∧
  settled st = [] ∧ isRefreshingToken st = false ∧
  failedRequestsQueue st = [] ∧
  match stored with
  | None => timers st = [] ∧ sent st = [] ∧ inflight st = []
  | Some o =>
      if shouldRefreshToken
      then
        if 0 <? OAuth.expiresAt o - now - refreshTokenTimeoutInMs
        then timers st
             = [(0%nat, OAuth.expiresAt o - now - refreshTokenTimeoutInMs)]
             ∧ sent st = [] ∧ inflight st = []
        else timers st = [] ∧ sent st = [refreshGrant o]
             ∧ inflight st = [(0%nat, ARefresh FromTimer)]
      else timers st = [] ∧ sent st = [] ∧ inflight st = []
  end.
Proof.
  unfold useAuth. destruct stored as [o|]; [|done].
  destruct shouldRefreshToken; [|done].
  unfold setRefreshTokenTimeout, refreshToken, isAuthenticated. simpl.
  by case (0 <? _).
Qed.

(** ** Calls and their replies *)

Lemma lookupInflight_send cfg a (st : State) :
  reachable st → lookupInflight (length (sent st)) (send cfg a st) = Some a.
Proof.
  intros Hwf%reachable_wf. unfold lookupInflight. simpl.
  apply findAwaiter_fresh. by apply inflight_fresh.
Qed.

Lemma run_cons now ev evs (st st1 : State) :
  step now ev st = Some st1 → run ((now, ev) :: evs) st = run evs st1.
Proof. intros H. cbn [run]. by rewrite H. Qed.

Lemma passwordGrant_url email password : tokenUrl (passwordGrant email password).
Proof. apply tokenRequest_url. Qed.

(** X8: when the token request of a [signIn] call fails, whatever the
    status (a 401 included, with or without a session), the only effect is
    that the call's promise is rejected with that error: the token bundle,
    the user, the timeouts, the queue and the flag are as they were and no
    request is sent. *)
Theorem signIn_failure_keeps_session (st : State) req call r now :
  reachable st → lookupInflight req st = Some (ASignIn call) →
  isRejection r = true →
  ∃ e st',
    step now (Response req r) st = Some st' ∧
    st' = settle call (Rejected e) (removeInflight req st) ∧
    match r with
    | Failed status => e = AxiosError status (sent st !! req)
    | Thrown message => e = OtherError message
    | Fulfilled _ => False
    end ∧
    oAuth st' = oAuth st ∧ user st' = user st ∧ timers st' = timers st ∧
    sent st' = sent st ∧ isRefreshingToken st' = isRefreshingToken st ∧
    failedRequestsQueue st' = failedRequestsQueue st.
Proof.
  intros Hr Hfind Hrej.
  destruct (step_response now req r _ _ Hr Hfind) as (cfg & Hl & _ & ->).
  apply findAwaiter_elem in Hfind.
  destruct (sh_shape _ (reachable_shaped _ Hr) req _ Hfind)
    as (cfg' & Hl' & email & password & ->).
  assert (cfg = passwordGrant email password) as -> by congruence.
  destruct r as [b|status|message]; [done| |].
  - rewrite onRejected_propagates
      by apply token_error_not_refreshable, passwordGrant_url.
    eexists _, _. split_and!; try done. by rewrite Hl.
  - rewrite onRejected_propagates by done. by eexists _, _.
Qed.

(** X9: [revoke] with a session posts to the configured endpoint (the
    literal, or the function applied to the current access token); when the
    request succeeds the promise is resolved and the session is left as it
    was: token bundle, user and timeouts are unchanged. *)
Theorem revoke_keeps_session (st : State) o call b t1 t2 :
  reachable st → oAuth st = Some o →
  ∃ st',
    run [(t1, CallRevoke call);
         (t2, Response (length (sent st)) (Fulfilled b))] st = Some st' ∧
    sent st' = sent st ++ [revokeRequest o] ∧
    revokeRequest o !! "url" =
      Some (VStr match Options.revoke options with
                 | RevokeFunction f => f (OAuth.accessToken o)
                 | RevokeLiteral path => path
                 end) ∧
    revokeRequest o !! "method" = Some (VStr "post") ∧
    settled st' = settled st ++ [(call, Resolved NoBody)] ∧
    oAuth st' = Some o ∧ user st' = user st ∧
    isAuthenticated st' = isAuthenticated st ∧
    timers st' = timers st ∧
    refreshTokenTimeout st' = refreshTokenTimeout st.
Proof.
  intros Hr Ho.
  assert (Hstep1 : step t1 (CallRevoke call) st
                   = Some (send (revokeRequest o) (ARevoke call) st)).
  { simpl. unfold revoke. by rewrite Ho. }
  pose proof (reachable_step _ _ _ _ Hr Hstep1) as Hr1.
  pose proof (lookupInflight_send (revokeRequest o) (ARevoke call) st Hr)
    as Hfind.
  destruct (step_response t2 (length (sent st)) (Fulfilled b) _ _ Hr1 Hfind)
    as (cfg & _ & _ & Hstep2).
  eexists. rewrite (run_cons _ _ _ _ _ Hstep1), (run_cons _ _ _ _ _ Hstep2).
  split_and!; try done.
Qed.

(** X10: from any reachable state, a [signIn] call answered by a token
    response followed by a [getUser] call answered by the user resource
    leaves the session authenticated: both promises are resolved (that of
    [getUser] with the resource), the token bundle is the new one, the user
    is the resource and [isAuthenticated] yields true. *)
Theorem signIn_then_getUser (st : State) c1 c2 email password data u
    t1 t2 t3 t4 :
  reachable st →
  let r1 := length (sent st) in
  let r2 := (length (sent st) + 1 + length (immediateRefresh t2 data))%nat in
  ∃ st',
    run [(t1, CallSignIn c1 email password);
         (t2, Response r1 (Fulfilled (TokenBody data)));
         (t3, CallGetUser c2);
         (t4, Response r2 (Fulfilled (UserBody u)))] st = Some st' ∧
    sent st' = sent st ++ [passwordGrant email password]
               ++ immediateRefresh t2 data ++ [userInfoRequest] ∧
    settled st' = settled st
                  ++ [(c1, Resolved NoBody); (c2, Resolved (UserBody u))] ∧
    oAuth st' = Some (tokenBundle t2 data) ∧
    user st' = Some u ∧ isAuthenticated st' = true.
Proof.
  intros Hr r1 r2.
  (* signIn is called *)
  assert (Hstep1 : step t1 (CallSignIn c1 email password) st
                   = Some (signIn c1 email password st)) by done.
  pose proof (reachable_step _ _ _ _ Hr Hstep1) as Hr1.
  pose proof (lookupInflight_send (passwordGrant email password) (ASignIn c1)
                st Hr) as Hfind1.
  (* the token response *)
  destruct (step_response t2 r1 (Fulfilled (TokenBody data)) _ _ Hr1 Hfind1)
    as (cfg1 & _ & _ & Hstep2).
  rewrite fulfilled_signIn in Hstep2.
  set (st1 := removeInflight r1 (signIn c1 email password st)) in Hstep2.
  pose proof (storeToken_fields t2 data st1)
    as (_ & Ho & Hu & _ & _ & Hs & _ & Hset).
  set (st2 := settle c1 (Resolved NoBody) (fst (storeToken t2 data st1)))
    in Hstep2.
  pose proof (reachable_step _ _ _ _ Hr1 Hstep2) as Hr2.
  assert (Hsent2 : sent st2 = sent st ++ [passwordGrant email password]
                              ++ immediateRefresh t2 data).
  { subst st2. simpl. rewrite Hs. subst st1. simpl. by rewrite <- app_assoc. }
  assert (Hlen2 : length (sent st2) = r2).
  { rewrite Hsent2, !length_app. simpl. subst r2. lia. }
  (* getUser is called *)
  assert (Hstep3 : step t3 (CallGetUser c2) st2
                   = Some (send userInfoRequest (AGetUser c2) st2)).
  { simpl. unfold getUser. subst st2. simpl. by rewrite Ho. }
  pose proof (reachable_step _ _ _ _ Hr2 Hstep3) as Hr3.
  pose proof (lookupInflight_send userInfoRequest (AGetUser c2) st2 Hr2)
    as Hfind3.
  rewrite Hlen2 in Hfind3.
  (* the user resource *)
  destruct (step_response t4 r2 (Fulfilled (UserBody u)) _ _ Hr3 Hfind3)
    as (cfg3 & _ & _ & Hstep4).
  eexists.
  rewrite (run_cons _ _ _ _ _ Hstep1), (run_cons _ _ _ _ _ Hstep2),
    (run_cons _ _ _ _ _ Hstep3), (run_cons _ _ _ _ _ Hstep4).
  split; [done|]. unfold isAuthenticated. simpl.
  rewrite Hs, Ho, Hset. subst st1. simpl.
  split_and!; try done; by rewrite <- !app_assoc.
Qed.

(** X11: [signOut] does not stop a token request in flight.  When the token
    response of a [signIn] call or of a refresh arrives after the sign-out,
    the token bundle is present again (the new one) while the user stays
    absent. *)
Theorem token_response_after_signOut (st : State) req a t1 t2 data :
  reachable st → lookupInflight req st = Some a →
  (∃ call, a = ASignIn call) ∨ (∃ k, a = ARefresh k) →
  ∃ st',
    run [(t1, CallSignOut);
         (t2, Response req (Fulfilled (TokenBody data)))] st = Some st' ∧
    oAuth st' = Some (tokenBundle t2 data) ∧
    user st' = None ∧ isAuthenticated st' = false.
Proof.
  intros Hr Hfind Ha.
  assert (Hstep1 : step t1 CallSignOut st = Some (signOut st)) by done.
  pose proof (reachable_step _ _ _ _ Hr Hstep1) as Hr1.
  assert (Hfind1 : lookupInflight req (signOut st) = Some a).
  { unfold lookupInflight. by rewrite signOut_eq. }
  destruct (step_response t2 req (Fulfilled (TokenBody data)) _ _ Hr1 Hfind1)
    as (cfg & _ & Hk & Hstep2).
  set (st1 := removeInflight req (signOut st)) in Hstep2.
  pose proof (storeToken_fields t2 data st1) as (_ & Ho & Hu & _).
  assert (Hu1 : user st1 = None) by (subst st1; by rewrite signOut_eq).
  rewrite (run_cons _ _ _ _ _ Hstep1).
  destruct Ha as [[call ->]|[k ->]].
  - rewrite fulfilled_signIn in Hstep2. rewrite (run_cons _ _ _ _ _ Hstep2).
    eexists. split; [done|]. unfold isAuthenticated. simpl.
    by rewrite Ho, Hu, Hu1.
  - rewrite fulfilled_refresh in Hstep2. rewrite (run_cons _ _ _ _ _ Hstep2).
    eexists. destruct (Hk k eq_refl) as [Hok _].
    pose proof (refreshTokenSettled_fields k (fst (storeToken t2 data st1)) Hok)
      as (Ho' & Hu' & _).
    split; [done|]. unfold isAuthenticated. simpl.
    by rewrite Ho', Hu', Ho, Hu, Hu1.
Qed.

Lemma refreshTokenSettled_timers k (st : State) :
  callerOk k = true →
  timers (refreshTokenSettled k st) = timers st ∧
  refreshTokenTimeout (refreshTokenSettled k st) = refreshTokenTimeout st ∧
  inflight (refreshTokenSettled k st) =
    inflight st ++
    match k, oAuth st with
    | FromInterceptor _ _, Some _ =>
        map (λ i, (i, AReplay))
          (seq (length (sent st)) (length (failedRequestsQueue st)))
    | _, _ => []
    end.
Proof.
  destruct k as [|err a]; simpl; [by rewrite app_nil_r|]. intros Ha.
  destruct (oAuth st) as [o|]; rewrite ?processQueue_eq;
    destruct a; try done; simpl; by rewrite ?app_nil_r.
Qed.

Lemma timers_fired id (st : State) :
  timersTracked st → id ∈ (timers st).*1 → timers (expire id st) = [].
Proof.
  unfold timersTracked, expire. simpl.
  destruct (timers st) as [|[i d] [|t l]]; [done| |done].
  intros _ Hin. apply list_elem_of_singleton in Hin. simpl in Hin. subst i.
  rewrite filter_cons. simpl.
  by rewrite decide_False by (intros H; by apply H).
Qed.

(** X12: a rejected refresh does not cancel the scheduled timeout: the
    timeouts and [refreshTokenTimeout] are as before.  When such a timeout
    fires afterwards, [refreshToken] finds no token bundle: nothing is sent,
    the callback is not called again and no timeout is left. *)
Theorem rejected_refresh_leaves_timer (st : State) req k r now :
  reachable st → lookupInflight req st = Some (ARefresh k) →
  isRejection r = true →
  ∃ st',
    step now (Response req r) st = Some st' ∧
    timers st' = timers st ∧
    refreshTokenTimeout st' = refreshTokenTimeout st ∧
    ∀ id now', id ∈ (timers st).*1 →
      ∃ st'',
        step now' (TimerFires id) st' = Some st'' ∧
        oAuth st'' = None ∧ sent st'' = sent st ∧ timers st'' = [] ∧
        settled st'' = settled st' ∧
        refreshFailedCalls st'' = refreshFailedCalls st'.
Proof.
  intros Hr Hfind Hrej.
  destruct (step_response now req r _ _ Hr Hfind) as (cfg & _ & Hk & Hstep).
  destruct (Hk k eq_refl) as [Hok Hurl].
  set (st1 := removeInflight req st) in Hstep.
  assert (Hst' : step now (Response req r) st
                 = Some (refreshTokenSettled k (refreshFailed st1))).
  { rewrite Hstep. destruct r as [b|status|message]; [done| |].
    - by rewrite onRejected_propagates, rejected_refresh
        by by apply token_error_not_refreshable.
    - by rewrite onRejected_propagates, rejected_refresh by done. }
  pose proof (reachable_step _ _ _ _ Hr Hst') as Hr'.
  pose proof (refreshTokenSettled_timers k (refreshFailed st1) Hok)
    as (Ht & Hv & _).
  pose proof (refreshTokenSettled_fields k (refreshFailed st1) Hok)
    as (Ho & _ & _ & Hrest).
  assert (Hsent : sent (refreshTokenSettled k (refreshFailed st1)) = sent st).
  { destruct k as [|err a]; [by rewrite Hrest|].
    destruct Hrest as (-> & _). simpl. by rewrite app_nil_r. }
  eexists. split; [exact Hst'|]. split_and!; [done..|].
  intros id now' Hid. simpl.
  rewrite bool_decide_true by by rewrite Ht.
  eexists. split; [done|]. unfold refreshToken. simpl.
  rewrite Ho. simpl. split_and!; try done.
  apply (timers_fired id); [apply (reachable_wf _ Hr')|by rewrite Ht].
Qed.

(** X13: a request with a promise gets a 401 while no refresh is in flight,
    the refresh succeeds, and the replayed request succeeds too.  The replay
    is the queued request with the new access token; its response is
    dropped: the promise of the call stays rejected with the 401 and the
    user is as before (so a [getUser] call that met a 401 never stores the
    user). *)
Theorem replayed_response_is_dropped (st : State) req a call cfg o data b
    t1 t2 t3 :
  reachable st → lookupInflight req st = Some a → promise a = Some call →
  sent st !! req = Some cfg → cfg !! "url" ≠ Some (VStr tokenEndpoint) →
  oAuth st = Some o → isRefreshingToken st = false →
  let err := AxiosError (Some 401) (Some cfg) in
  let refresh := length (sent st) in
  let replay := (length (sent st) + 1
                 + length (immediateRefresh t2 data))%nat in
  ∃ st',
    run [(t1, Response req (Failed (Some 401)));
         (t2, Response refresh (Fulfilled (TokenBody data)));
         (t3, Response replay (Fulfilled b))] st = Some st' ∧
    sent st' = sent st ++ [refreshGrant o] ++ immediateRefresh t2 data
               ++ [retry err (access_token data)] ∧
    settled st' = settled st ++ [(call, Rejected err)] ∧
    user st' = user st ∧
    oAuth st' = Some (tokenBundle t2 data) ∧
    failedRequestsQueue st' = [] ∧ isRefreshingToken st' = false.
Proof.
  intros Hr Hfind Hp Hcfg Hurl Ho Hflag err refresh replay.
  pose proof (reachable_wf _ Hr) as Hwf.
  destruct (wf_idle _ Hwf Hflag) as [_ Hq].
  pose proof (promise_isCaller _ _ Hp) as Ha.
  assert (Hrej : rejection a err = [(call, Rejected err)]).
  { unfold rejection. by rewrite Hp. }
  (* the 401 *)
  destruct (step_response t1 req (Failed (Some 401)) _ _ Hr Hfind)
    as (c & Hl & _ & Hstep1).
  assert (c = cfg) as -> by congruence. fold err in Hstep1.
  rewrite (onRejected_start a err o) in Hstep1;
    [|by apply (refreshable_401 cfg o)|done..].
  set (st1 := send (refreshGrant o) (ARefresh (FromInterceptor err a)) _)
    in Hstep1.
  pose proof (reachable_step _ _ _ _ Hr Hstep1) as Hr1.
  assert (Hfind1 : lookupInflight refresh st1
                   = Some (ARefresh (FromInterceptor err a))).
  { unfold lookupInflight. simpl. apply findAwaiter_fresh.
    intros id c [_ Hin]%list_elem_of_filter. by eapply inflight_fresh. }
  (* the token response *)
  destruct (step_response t2 refresh (Fulfilled (TokenBody data)) _ _
              Hr1 Hfind1) as (c2 & _ & _ & Hstep2).
  rewrite fulfilled_refresh in Hstep2.
  set (s := fst (storeToken t2 data (removeInflight refresh st1))) in Hstep2.
  pose proof (storeToken_fields t2 data (removeInflight refresh st1))
    as (_ & Hos & Hus & _ & Hqs & Hss & _ & Hsets).
  fold s in Hos, Hus, Hqs, Hss, Hsets. simpl in Hus, Hqs, Hss, Hsets.
  rewrite Hq in Hqs. simpl in Hqs.
  assert (Hoks : callerOk (FromInterceptor err a) = true) by done.
  pose proof (refreshTokenSettled_fields _ s Hoks)
    as (Ho2 & Hu2 & _ & Hsent2 & Hq2 & Hf2 & Hset2).
  pose proof (refreshTokenSettled_timers _ s Hoks) as (_ & _ & Hin2).
  set (st2 := refreshTokenSettled (FromInterceptor err a) s) in *.
  rewrite Hos, Hqs in Hsent2, Hin2. simpl in Hsent2, Hin2.
  pose proof (reachable_step _ _ _ _ Hr1 Hstep2) as Hr2.
  assert (Hlen : length (sent s) = replay).
  { rewrite Hss, !length_app. simpl. subst replay. lia. }
  assert (Hwfs : wf s).
  { subst s. apply keeps_storeToken, wf_removeInflight.
    by apply reachable_wf. }
  assert (Hfind2 : lookupInflight replay st2 = Some AReplay).
  { unfold lookupInflight. rewrite Hin2, Hlen. apply findAwaiter_fresh.
    rewrite <- Hlen. by apply inflight_fresh. }
  (* the response to the replay *)
  destruct (step_response t3 replay (Fulfilled b) _ _ Hr2 Hfind2)
    as (c3 & _ & _ & Hstep3).
  eexists.
  rewrite (run_cons _ _ _ _ _ Hstep1), (run_cons _ _ _ _ _ Hstep2),
    (run_cons _ _ _ _ _ Hstep3).
  split; [done|]. simpl.
  rewrite Hsent2, Hset2, Hu2, Ho2, Hss, Hsets, Hus, Hos, Hrej.
  split_and!; try done. by rewrite <- !app_assoc.
Qed.

(** X14: while the flag is up, a further refreshable 401 starts nothing: the
    handler appends its [retry] closure to the queue and rejects the call
    with the error; no request is sent and the requests in flight, the token
    bundle and the flag are as they were. *)
Theorem queued_while_refreshing (st : State) req a call cfg status now :
  reachable st → lookupInflight req st = Some a → promise a = Some call →
  sent st !! req = Some cfg →
  let err := AxiosError status (Some cfg) in
  refreshable err st = true → isRefreshingToken st = true →
  ∃ st',
    step now (Response req (Failed status)) st = Some st' ∧
    failedRequestsQueue st' = failedRequestsQueue st ++ [retry err] ∧
    settled st' = settled st ++ [(call, Rejected err)] ∧
    sent st' = sent st ∧
    inflight st' = inflight (removeInflight req st) ∧
    oAuth st' = oAuth st ∧ isRefreshingToken st' = true.
Proof.
  intros Hr Hfind Hp Hcfg err Href Hflag.
  pose proof (promise_isCaller _ _ Hp) as Ha.
  destruct (step_response now req (Failed status) _ _ Hr Hfind)
    as (c & Hl & _ & ->).
  assert (c = cfg) as -> by congruence. fold err.
  rewrite onRejected_queued by done. eexists. split; [done|].
  pose proof (rejected_caller_fields a err
                (set_failedRequestsQueue
                   (failedRequestsQueue (removeInflight req st) ++ [retry err])
                   (removeInflight req st)) Ha)
    as (Hs & Hsent & Hin & Hq & Hf & Ho & _).
  rewrite Hs, Hsent, Hin, Hq, Hf, Ho. unfold rejection. rewrite Hp.
  by split_and!.
Qed.

(** X15: when a token response answers the refresh the interceptor started,
    every queued closure is called once, in queue order, with the new access
    token (after the request the scheduler may send for the new bundle);
    each of them is a [retry] of a request that did not go to the token
    endpoint; then the queue is empty and the flag is down. *)
Theorem refresh_replays_whole_queue (st : State) req err a now data :
  reachable st →
  lookupInflight req st = Some (ARefresh (FromInterceptor err a)) →
  ∃ st',
    step now (Response req (Fulfilled (TokenBody data))) st = Some st' ∧
    sent st' = sent st ++ immediateRefresh now data ++
               map (λ request, request (access_token data))
                 (failedRequestsQueue st) ∧
    Forall (λ request, ∃ e, request = retry e ∧ urlIsTokenEndpoint e = false)
      (failedRequestsQueue st) ∧
    oAuth st' = Some (tokenBundle now data) ∧
    failedRequestsQueue st' = [] ∧ isRefreshingToken st' = false.
Proof.
  intros Hr Hfind.
  destruct (step_response now req (Fulfilled (TokenBody data)) _ _ Hr Hfind)
    as (cfg & _ & Hk & ->).
  destruct (Hk _ eq_refl) as [Hok _].
  rewrite fulfilled_refresh. eexists. split; [done|].
  set (st1 := removeInflight req st).
  pose proof (storeToken_fields now data st1)
    as (_ & Ho & _ & _ & Hq & Hs & _).
  pose proof (refreshTokenSettled_fields _ (fst (storeToken now data st1)) Hok)
    as (Ho' & _ & _ & Hsent & Hq' & Hf' & _).
  split_and!; [|apply Forall_forall, (reachable_shaped _ Hr)|
               by rewrite Ho', Ho|done..].
  rewrite Hsent, Ho, Hs, Hq. subst st1. simpl. by rewrite app_assoc.
Qed.

End UseAuth.

(** * Properties of the earlier revision *)

Section LegacyProperties.

Import Legacy.

Context {T : Type}.
Variable options : Options.t.
Implicit Types (st : @State T) (a : Awaiter) (l : list (nat * Awaiter)).

Lemma legacy_findAwaiter_app req a l l' :
  findAwaiter req l = Some a → findAwaiter req (l ++ l') = Some a.
Proof.
  induction l as [|[i c] l IH]; [done|]. simpl.
  destruct (Nat.eqb i req); [done|apply IH].
Qed.

Lemma legacy_findAwaiter_remove req req' l :
  req ≠ req' →
  findAwaiter req (filter (λ p, p.1 ≠ req') l) = findAwaiter req l.
Proof.
  intros Hne. induction l as [|[i c] l IH]; [done|].
  rewrite filter_cons. simpl. case_decide as Hi; simpl.
  - by rewrite IH.
  - destruct (Nat.eqb_spec i req) as [->|_]; [|done]. by destruct Hne.
Qed.

Lemma legacy_step_response now req r a cfg st :
  lookupInflight req st = Some a → sent st !! req = Some cfg →
  step options now (Response req r) st =
    match r with
    | Fulfilled b => fulfilled options now a b (removeInflight req st)
    | Failed status =>
        Some (onRejected options a (AxiosError status (Some cfg))
                (removeInflight req st))
    | Thrown message =>
        Some (onRejected options a (OtherError message) (removeInflight req st))
    end.
Proof. intros Hfind Hl. simpl. by rewrite Hfind, Hl. Qed.

Lemma legacy_run_cons now ev evs st st1 :
  step options now ev st = Some st1 →
  run options ((now, ev) :: evs) st = run options evs st1.
Proof. intros H. cbn [run]. by rewrite H. Qed.

Lemma legacy_storeToken_fields now data st :
  let st' := fst (storeToken options now data st) in
  snd (storeToken options now data st) = None ∧
  oAuth st' = Some (tokenBundle now data) ∧
  user st' = user st ∧ settled st' = settled st ∧
  (sent st' = sent st ∧ inflight st' = inflight st
   ∨ sent st' = sent st ++ [refreshGrant options (Some (tokenBundle now data))]
     ∧ inflight st' = inflight st ++ [(length (sent st), ARefresh FromTimer)]).
Proof.
  unfold storeToken, setRefreshTokenTimeout, refreshToken. simpl.
  destruct (refreshTokenTimeout st); simpl; case (0 <? _); simpl;
    split_and!; auto.
Qed.

Lemma legacy_onRejected_401 a cfg o st :
  oAuth st = Some o →
  onRejected options a (AxiosError (Some 401) (Some cfg)) st
  = refreshToken options (FromInterceptor (AxiosError (Some 401) (Some cfg)) a)
      st.
Proof. intros Ho. unfold onRejected, intercepts. by rewrite Ho. Qed.

(** X16: in the earlier revision every 401 met with a session makes the
    handler send a refresh-grant request of its own and wait: two requests
    that both get a 401 give two refresh requests, nothing is settled, and it
    makes no difference which request failed (a 401 answer to a refresh
    request starts the next refresh). *)
Theorem legacy_every_401_refreshes st o r1 r2 a1 a2 cfg1 cfg2 t1 t2 :
  oAuth st = Some o →
  lookupInflight r1 st = Some a1 → lookupInflight r2 st = Some a2 → r1 ≠ r2 →
  sent st !! r1 = Some cfg1 → sent st !! r2 = Some cfg2 →
  let err1 := AxiosError (Some 401) (Some cfg1) in
  let err2 := AxiosError (Some 401) (Some cfg2) in
  ∃ st',
    run options [(t1, Response r1 (Failed (Some 401)));
                 (t2, Response r2 (Failed (Some 401)))] st = Some st' ∧
    sent st' = sent st ++ [refreshGrant options (Some o);
                           refreshGrant options (Some o)] ∧
    inflight st' =
      filter (λ p, p.1 ≠ r2)
        (filter (λ p, p.1 ≠ r1) (inflight st)
         ++ [(length (sent st), ARefresh (FromInterceptor err1 a1))])
      ++ [(S (length (sent st)), ARefresh (FromInterceptor err2 a2))] ∧
    settled st' = settled st ∧ oAuth st' = Some o ∧ user st' = user st.
Proof.
  intros Ho Hf1 Hf2 Hne Hc1 Hc2 err1 err2.
  pose proof (legacy_step_response t1 r1 (Failed (Some 401)) a1 cfg1 st Hf1 Hc1)
    as Hstep1.
  cbv beta iota in Hstep1.
  rewrite (legacy_onRejected_401 a1 cfg1 o) in Hstep1 by done.
  fold err1 in Hstep1.
  set (st1 := refreshToken options (FromInterceptor err1 a1)
                (removeInflight r1 st)) in Hstep1.
  assert (Hf2' : lookupInflight r2 st1 = Some a2).
  { unfold lookupInflight. simpl. apply legacy_findAwaiter_app.
    by rewrite legacy_findAwaiter_remove. }
  assert (Hc2' : sent st1 !! r2 = Some cfg2).
  { simpl. rewrite lookup_app_l; [done|]. by eapply lookup_lt_Some. }
  pose proof (legacy_step_response t2 r2 (Failed (Some 401)) a2 cfg2 st1
                Hf2' Hc2') as Hstep2.
  cbv beta iota in Hstep2.
  rewrite (legacy_onRejected_401 a2 cfg2 o) in Hstep2 by done.
  fold err2 in Hstep2.
  eexists.
  rewrite (legacy_run_cons _ _ _ _ _ Hstep1), (legacy_run_cons _ _ _ _ _ Hstep2).
  split; [done|]. simpl. rewrite Ho, length_app, <- app_assoc. simpl.
  by rewrite Nat.add_1_r.
Qed.

Lemma legacy_fulfilled_refresh now k data st :
  fulfilled options now (ARefresh k) (TokenBody data) st
  = Some (refreshed k (fst (storeToken options now data st))).
Proof.
  pose proof (legacy_storeToken_fields now data st) as [Hsnd _]. simpl.
  destruct (storeToken options now data st) as [st1 thrown]. simpl in *.
  by subst.
Qed.

(** X17: in the earlier revision, when a token response answers the refresh
    the handler awaited, the new bundle is stored and the failed request is
    sent again (after the refresh the scheduler may send for the new
    bundle); the replay keeps the failed request's config but its headers
    are replaced by the single header Authorization: 'Bearer ' + new access
    token.  Nothing is settled yet. *)
Theorem legacy_refresh_answered_replays st req err a cfg now data
    (key : string) :
  lookupInflight req st = Some (ARefresh (FromInterceptor err a)) →
  sent st !! req = Some cfg →
  ∃ st' scheduled,
    step options now (Response req (Fulfilled (TokenBody data))) st
      = Some st' ∧
    oAuth st' = Some (tokenBundle now data) ∧
    sent st' = sent st ++ scheduled ++ [retry err (Data.accessToken data)] ∧
    (scheduled = [] ∨
     scheduled = [refreshGrant options (Some (tokenBundle now data))]) ∧
    last (inflight st')
      = Some (length (sent st ++ scheduled), AReplay err a) ∧
    settled st' = settled st ∧ user st' = user st ∧
    retry err (Data.accessToken data) !! key =
      if decide ("headers" = key)
      then Some (VHeaders
                   {["Authorization" := "Bearer " +:+ Data.accessToken data]})
      else default ∅ (errConfig err) !! key.
Proof.
  intros Hfind Hl.
  rewrite (legacy_step_response now req _ _ cfg st Hfind Hl).
  rewrite legacy_fulfilled_refresh.
  set (st1 := removeInflight req st).
  pose proof (legacy_storeToken_fields now data st1)
    as (_ & Ho & Hu & Hs & Hsent).
  set (s := fst (storeToken options now data st1)) in *.
  assert (Hre : refreshed (FromInterceptor err a) s
                = send (retry err (Data.accessToken data)) (AReplay err a) s).
  { simpl. by rewrite Ho. }
  rewrite Hre.
  destruct Hsent as [[Hsent Hin]|[Hsent Hin]].
  - exists (send (retry err (Data.accessToken data)) (AReplay err a) s), [].
    simpl. rewrite Ho, Hu, Hs, Hsent, last_snoc, !app_nil_r.
    split_and!; auto. apply lookup_insert.
  - exists (send (retry err (Data.accessToken data)) (AReplay err a) s),
      [refreshGrant options (Some (tokenBundle now data))].
    simpl. rewrite Ho, Hu, Hs, Hsent, last_snoc, <- app_assoc.
    split_and!; auto. apply lookup_insert.
Qed.

(** X18: in the earlier revision the response to a replay is handed to the
    continuation of the original call, as if its own request had succeeded:
    a request of the application is resolved with the replay's response,
    and a [getUser] call stores the user and is resolved with it. *)
Theorem legacy_replay_resolves_original st req err a cfg now b :
  lookupInflight req st = Some (AReplay err a) →
  sent st !! req = Some cfg →
  step options now (Response req (Fulfilled b)) st
    = fulfilled options now a b (removeInflight req st) ∧
  match a, b with
  | ARequest call, _ =>
      step options now (Response req (Fulfilled b)) st
      = Some (settle call (Resolved b) (removeInflight req st))
  | AGetUser call, UserBody u =>
      ∃ st',
        step options now (Response req (Fulfilled b)) st = Some st' ∧
        user st' = Some u ∧ isAuthenticated st' = true ∧
        settled st' = settled st ++ [(call, Resolved (UserBody u))] ∧
        oAuth st' = oAuth st
  | _, _ => True
  end.
Proof.
  intros Hfind Hl.
  rewrite (legacy_step_response now req _ _ cfg st Hfind Hl).
  split; [done|]. destruct a as [| |call|call| |]; try done.
  destruct b as [|u|]; try done. by eexists.
Qed.

Lemma legacy_rejected_frame a :
  ∀ err st,
    user (rejected a err st) = user st ∧ sent (rejected a err st) = sent st ∧
    timers (rejected a err st) = timers st ∧
    inflight (rejected a err st) = inflight st ∧
    (oAuth st = None → oAuth (rejected a err st) = None) ∧
    (∀ call, promise a = Some call →
       rejected a err st = settle call (Rejected err) st).
Proof.
  induction a using Awaiter_mut with
    (P0 := λ k, ∀ err st,
       user (rejected (ARefresh k) err st) = user st ∧
       sent (rejected (ARefresh k) err st) = sent st ∧
       timers (rejected (ARefresh k) err st) = timers st ∧
       inflight (rejected (ARefresh k) err st) = inflight st ∧
       (oAuth st = None → oAuth (rejected (ARefresh k) err st) = None));
    intros e st.
  - simpl. split_and!; try done. by intros c [= ->].
  - simpl. split_and!; try done. by intros c [= ->].
  - simpl. split_and!; try done. by intros c [= ->].
  - simpl. split_and!; try done. by intros c [= ->].
  - destruct (IHa e st) as (H1 & H2 & H3 & H4 & H5). by split_and!.
  - simpl.
    destruct (IHa err (set_oAuth None st)) as (H1 & H2 & H3 & H4 & H5 & _).
    split_and!; try done. intros _. by apply H5.
  - by simpl.
  - simpl.
    destruct (IHa err (set_oAuth None st)) as (H1 & H2 & H3 & H4 & H5 & _).
    split_and!; try done. intros _. by apply H5.
Qed.

(** X19: in the earlier revision, when the refresh the handler awaited
    fails with a status other than 401, the handler sets the token bundle to
    absent and rejects the original call with the original error; the user
    and the timeouts are untouched and nothing is sent.  A timeout that is
    still outstanding then fires a refresh-grant request that carries no
    refresh token, since [refreshToken] has no guard. *)
Theorem legacy_refresh_failure st req err a call cfg status now :
  lookupInflight req st = Some (ARefresh (FromInterceptor err a)) →
  promise a = Some call → sent st !! req = Some cfg →
  status ≠ Some 401 →
  ∃ st',
    step options now (Response req (Failed status)) st = Some st' ∧
    oAuth st' = None ∧
    settled st' = settled st ++ [(call, Rejected err)] ∧
    user st' = user st ∧ sent st' = sent st ∧ timers st' = timers st ∧
    ∀ id now', id ∈ (timers st).*1 →
      ∃ st'',
        step options now' (TimerFires id) st' = Some st'' ∧
        sent st'' = sent st ++ [refreshGrant options None] ∧
        refreshGrant options None !! "data" =
          Some (VData (<["refreshToken" := None]>
                       (<["clientSecret" := Some (Options.clientSecret options)]>
                       (<["clientId" := Some (Options.clientId options)]>
                        {["grantType" := Some "refresh_token"]})))).
Proof.
  intros Hfind Hp Hl Hstatus.
  rewrite (legacy_step_response now req _ _ cfg st Hfind Hl).
  assert (Hno : intercepts (AxiosError status (Some cfg)) (removeInflight req st)
                = false).
  { unfold intercepts. destruct status as [s|]; [|done].
    destruct (oAuth _); [|done]. destruct (Z.eqb_spec s 401); congruence. }
  unfold onRejected. rewrite Hno. simpl rejected.
  set (st1 := set_oAuth None (removeInflight req st)).
  destruct (legacy_rejected_frame a err st1) as (Hu & Hs & Ht & Hi & Ho & Hset).
  rewrite (Hset call Hp) in *.
  eexists. split; [done|]. split_and!; try done.
  intros id now' Hid. simpl.
  rewrite bool_decide_true by done. eexists. split; [done|]. done.
Qed.

(** X20: without a session the earlier revision guards [getUser] only:
    [getUser] fails with 'Not logged in' and sends nothing, while
    [invalidateToken] requests '/oauth/invalidate?token=undefined' and
    [refreshToken] sends a refresh grant without refresh token; a 401 then
    starts no refresh. *)
Theorem legacy_no_session st call k a status config :
  oAuth st = None →
  getUser call st = (st, Some notLoggedIn) ∧
  invalidateToken options call st =
    send (<["baseURL" := VStr (Options.baseURL options)]>
          {["url" := VStr "/oauth/invalidate?token=undefined"]})
      (AInvalidate call) st ∧
  refreshToken options k st = send (refreshGrant options None) (ARefresh k) st ∧
  onRejected options a (AxiosError status config) st
    = rejected a (AxiosError status config) st.
Proof.
  intros Ho. unfold getUser, invalidateToken, refreshToken, onRejected,
    intercepts. rewrite Ho. split_and!; try done. by destruct status.
Qed.

End LegacyProperties.

(** ** Closed instances *)

Lemma twoRequests_reachable : reachable (T:=unit) sampleOptions (twoRequests sampleOptions).
Proof.
  eapply (reachable_step _ _ 2 (CallRequest 2 sampleRequestB)); [|done].
  eapply (reachable_step _ _ 1 (CallRequest 1 sampleRequestA)); [|done].
  apply reachable_useAuth.
Qed.

Lemma refreshStarted_reachable :
  reachable (T:=unit) sampleOptions (refreshStarted sampleOptions).
Proof.
  eapply (reachable_step _ _ 3539990 (Response 0 (Failed (Some 401))));
    [apply twoRequests_reachable|].
  vm_compute. reflexivity.
Qed.

Lemma signingIn_reachable :
  reachable (T:=unit) sampleOptions (signingIn sampleOptions).
Proof.
  eapply (reachable_step _ _ 0 (CallSignIn 1 "ada@example.org" "pa55word"));
    [apply reachable_useAuth|done].
Qed.

Lemma not_logged_in_fails_fast_witness :
  let st := useAuth (T:=unit) sampleOptions 0 None in
  oAuth st = None ∧
  refreshToken sampleOptions FromTimer st = (st, Some notLoggedIn) ∧
  revoke sampleOptions 7 st = (st, Some notLoggedIn) ∧
  getUser sampleOptions 7 st = (st, Some notLoggedIn).
Proof.
  intros st. split; [reflexivity|].
  destruct (not_logged_in_fails_fast sampleOptions st FromTimer 7 0 eq_refl)
    as (H1 & H2 & H3 & _).
  exact (conj H1 (conj H2 H3)).
Defined.

Lemma signOut_idempotent_witness :
  let st := restoredSession (T:=unit) sampleOptions in
  reachable sampleOptions st ∧
  timers st = [(0%nat, 3540000)] ∧
  timers (signOut st) = [] ∧
  signOut (signOut st) = signOut st.
Proof.
  intros st.
  assert (Hr : reachable sampleOptions st) by apply reachable_useAuth.
  destruct (signOut_idempotent sampleOptions st 5 Hr)
    as (_ & _ & _ & Ht & _ & Hi).
  exact (conj Hr (conj eq_refl (conj Ht Hi))).
Defined.

Lemma signOut_frame_witness :
  let st := refreshStarted (T:=unit) sampleOptions in
  let err := AxiosError (Some 401) (Some sampleRequestA) in
  reachable sampleOptions st ∧
  lookupInflight 2 st = Some (ARefresh (FromInterceptor err (ARequest 1))) ∧
  ∃ st',
    step sampleOptions 3540050 (Response 2 (Fulfilled (TokenBody sampleToken)))
      (signOut st) = Some st' ∧
    sent st' = sent st ++ immediateRefresh sampleOptions 3540050 sampleToken ++
               map (λ request, request (access_token sampleToken))
                 (failedRequestsQueue st) ∧
    failedRequestsQueue st' = [] ∧ isRefreshingToken st' = false.
Proof.
  intros st err.
  assert (Hr : reachable sampleOptions st) by apply refreshStarted_reachable.
  assert (Hf : lookupInflight 2 st
               = Some (ARefresh (FromInterceptor err (ARequest 1))))
    by (vm_compute; reflexivity).
  split; [exact Hr|]. split; [exact Hf|].
  exact (proj1 (proj2 (signOut_frame sampleOptions st) 2%nat err (ARequest 1)
                  3540050 Hr Hf) sampleToken).
Defined.

Lemma interceptor_propagates_witness :
  let st := twoRequests (T:=unit) sampleOptions in
  let err := AxiosError (Some 500) (Some sampleRequestA) in
  (errStatus err ≠ Some 401 ∨ oAuth st = None
   ∨ errUrl err = Some (VStr tokenEndpoint)) ∧
  onRejected sampleOptions (ARequest 1) err st
    = settle 1 (Rejected err) st.
Proof.
  intros st err.
  assert (H : errStatus err ≠ Some 401 ∨ oAuth st = None
              ∨ errUrl err = Some (VStr tokenEndpoint)).
  { left. simpl. discriminate. }
  split; [exact H|].
  exact (proj1 (proj2 (interceptor_propagates sampleOptions (ARequest 1) err st H))).
Defined.


Lemma signIn_keeps_isAuthenticated_witness :
  let st := signingIn (T:=unit) sampleOptions in
  reachable sampleOptions st ∧ lookupInflight 0 st = Some (ASignIn 1) ∧
  ∃ st',
    step sampleOptions 10 (Response 0 (Fulfilled (TokenBody sampleToken))) st
      = Some st' ∧
    settled st' = settled st ++ [(1%nat, Resolved NoBody)] ∧
    oAuth st' = Some (tokenBundle 10 sampleToken) ∧
    user st' = user st ∧
    isAuthenticated st' = isAuthenticated st ∧
    (isAuthenticated st' = true ↔ user st' ≠ None).
Proof.
  intros st.
  assert (Hr : reachable sampleOptions st) by apply signingIn_reachable.
  split; [exact Hr|]. split; [reflexivity|].
  exact (signIn_keeps_isAuthenticated sampleOptions st 0 1 10 sampleToken
           Hr eq_refl).
Defined.

Lemma expiresAt_from_receipt_witness :
  let st := signingIn (T:=unit) sampleOptions in
  reachable sampleOptions st ∧ lookupInflight 0 st = Some (ASignIn 1) ∧
  ∃ st' o,
    step sampleOptions 10 (Response 0 (Fulfilled (TokenBody sampleToken))) st
      = Some st' ∧
    oAuth st' = Some o ∧ OAuth.expiresAt o = 10 + 3600 * 1000.
Proof.
  intros st.
  assert (Hr : reachable sampleOptions st) by apply signingIn_reachable.
  split; [exact Hr|]. split; [reflexivity|].
  destruct (expiresAt_from_receipt sampleOptions st 0 (ASignIn 1) 10 sampleToken
              Hr eq_refl (or_introl (ex_intro _ 1%nat eq_refl)))
    as (st' & o & Hs & Ho & He & _).
  exact (ex_intro _ st' (ex_intro _ o (conj Hs (conj Ho He)))).
Defined.

Lemma refresh_rejected_clears_token_witness :
  let st := refreshStarted (T:=unit) sampleOptions in
  let k := FromInterceptor (AxiosError (Some 401) (Some sampleRequestA))
             (ARequest 1) in
  reachable sampleOptions st ∧ lookupInflight 2 st = Some (ARefresh k) ∧
  isRejection (T:=unit) (Failed (Some 400)) = true ∧
  ∃ st',
    step sampleOptions 3540050 (Response 2 (Failed (Some 400))) st = Some st' ∧
    oAuth st' = None ∧ user st' = user st ∧
    refreshFailedCalls st' = S (refreshFailedCalls st) ∧
    sent st' = sent st.
Proof.
  intros st k.
  assert (Hr : reachable sampleOptions st) by apply refreshStarted_reachable.
  assert (Hf : lookupInflight 2 st = Some (ARefresh k))
    by (vm_compute; reflexivity).
  split; [exact Hr|]. split; [exact Hf|]. split; [reflexivity|].
  destruct (refresh_rejected_clears_token sampleOptions st 2 k
              (Failed (Some 400)) 3540050 Hr Hf eq_refl)
    as (st' & Hs & Ho & Hu & _ & Hc & Hsent & _).
  exact (ex_intro _ st' (conj Hs (conj Ho (conj Hu (conj Hc Hsent))))).
Defined.

Lemma original_call_rejects_witness :
  let st := twoRequests (T:=unit) sampleOptions in
  let err := AxiosError (Some 401) (Some sampleRequestA) in
  reachable sampleOptions st ∧
  lookupInflight 0 st = Some (ARequest 1) ∧
  promise (ARequest 1) = Some 1%nat ∧
  sent st !! 0%nat = Some sampleRequestA ∧
  refreshable err st = true ∧
  ∃ st1,
    step sampleOptions 3539990 (Response 0 (Failed (Some 401))) st = Some st1 ∧
    settled st1 = settled st ∧
    lookupInflight (length (sent st)) st1
      = Some (ARefresh (FromInterceptor err (ARequest 1))).
Proof.
  intros st err.
  assert (Hr : reachable sampleOptions st) by apply twoRequests_reachable.
  assert (Href : refreshable err st = true) by (vm_compute; reflexivity).
  split; [exact Hr|]. split; [reflexivity|]. split; [reflexivity|].
  split; [reflexivity|]. split; [exact Href|].
  destruct (original_call_rejects sampleOptions st 0 (ARequest 1) 1
              sampleRequestA (Some 401) 3539990 Hr eq_refl eq_refl eq_refl Href)
    as (st1 & Hs & H).
  change (isRefreshingToken st) with false in H. destruct H as (H1 & H2 & _).
  exact (ex_intro _ st1 (conj Hs (conj H1 H2))).
Defined.

Lemma two_401_one_refresh_witness :
  let st := twoRequests (T:=unit) sampleOptions in
  let err1 := AxiosError (Some 401) (Some sampleRequestA) in
  let err2 := AxiosError (Some 401) (Some sampleRequestB) in
  reachable sampleOptions st ∧ oAuth st = Some sampleBundle ∧
  isRefreshingToken st = false ∧
  lookupInflight 0 st = Some (ARequest 1) ∧
  lookupInflight 1 st = Some (ARequest 2) ∧
  sent st !! 0%nat = Some sampleRequestA ∧
  sent st !! 1%nat = Some sampleRequestB ∧
  sampleRequestA !! "url" ≠ Some (VStr tokenEndpoint) ∧
  sampleRequestB !! "url" ≠ Some (VStr tokenEndpoint) ∧
  ∃ st2,
    run sampleOptions
      [(3539990, Response 0 (Failed (Some 401)));
       (3539991, Response 1 (Failed (Some 401)))] st = Some st2 ∧
    sent st2 = sent st ++ [refreshGrant sampleOptions sampleBundle] ∧
    failedRequestsQueue st2 = [retry err1; retry err2] ∧
    isRefreshingToken st2 = true.
Proof.
  intros st err1 err2.
  assert (Hr : reachable sampleOptions st) by apply twoRequests_reachable.
  assert (Hu1 : sampleRequestA !! "url" ≠ Some (VStr tokenEndpoint))
    by (vm_compute; discriminate).
  assert (Hu2 : sampleRequestB !! "url" ≠ Some (VStr tokenEndpoint))
    by (vm_compute; discriminate).
  split; [exact Hr|]. do 6 (split; [reflexivity|]).
  split; [exact Hu1|]. split; [exact Hu2|].
  destruct (two_401_one_refresh sampleOptions st sampleBundle 0 1
              (ARequest 1) (ARequest 2) sampleRequestA sampleRequestB
              3539990 3539991 Hr eq_refl eq_refl eq_refl eq_refl
              (Nat.neq_0_succ 0) eq_refl eq_refl Hu1 Hu2)
    as (st2 & Hrun & Hsent & Hq & Hf & _).
  exact (ex_intro _ st2 (conj Hrun (conj Hsent (conj Hq Hf)))).
Defined.

(** ** Where the code differs *)

(** A fresh session signs in and the token endpoint answers: the token
    bundle is present, and [isAuthenticated] yields false. *)
Lemma signIn_not_authenticated :
  (λ st, (oAuthIsNone st, isAuthenticated st)) <$>
    run sampleOptions
      [(0, CallSignIn 1 "ada@example.org" "pa55word");
       (10, Response 0 (Fulfilled (TokenBody sampleToken)))]
      (useAuth (T:=unit) sampleOptions 0 None)
  = Some (false, false).
Proof. vm_compute. reflexivity. Qed.

(** A restored session fetches its user; later the timeout fires and the
    refresh-grant request is rejected: the token bundle is absent, the
    callback was called once, the user is still there and [isAuthenticated]
    still yields true. *)
Lemma refresh_rejected_user_stays :
  (λ st, (oAuthIsNone st, user st, isAuthenticated st, refreshFailedCalls st))
    <$> run sampleOptions
          [(1, CallGetUser 1);
           (5, Response 0 (Fulfilled (UserBody tt)));
           (3540000, TimerFires 0);
           (3540100, Response 1 (Failed (Some 400)))]
          (useAuth (T:=unit) sampleOptions 0 (Some sampleBundle))
  = Some (true, Some tt, true, 1%nat).
Proof. vm_compute. reflexivity. Qed.

(** C3: at most one refresh is meant to be in flight at a time.  The
    interceptor guards its call of [refreshToken] with [isRefreshingToken];
    [setRefreshTokenTimeout] calls [refreshToken] without reading or setting
    the flag.  A session is restored with auto-refresh on, a request gets a
    401 ten milliseconds before the scheduled timeout, and the timeout fires
    before the token endpoint has answered: two refreshes are in flight
    together, one of them started by the interceptor, and three requests
    have been sent (the request and two refresh grants). *)
Lemma timer_refresh_overlaps :
  (λ st, (refreshesInFlight st, interceptorRefreshesInFlight st,
          length (sent st)))
    <$> run sampleOptions
          [(1, CallRequest 1 sampleRequestA);
           (3539990, Response 0 (Failed (Some 401)));
           (3540000, TimerFires 0)]
          (useAuth (T:=unit) sampleOptions 0 (Some sampleBundle))
  = Some (2%nat, 1%nat, 3%nat).
Proof. vm_compute. reflexivity. Qed.

(** ** Closed instances of the further properties *)

Lemma refreshAnswered_reachable :
  reachable (T:=unit) sampleOptions (refreshAnswered sampleOptions).
Proof.
  eapply (reachable_step _ _ 3540050
            (Response 2 (Fulfilled (TokenBody sampleToken2))));
    [apply refreshStarted_reachable|].
  vm_compute. reflexivity.
Qed.

Lemma flag_tracks_interceptor_refresh_witness :
  let st := refreshStarted (T:=unit) sampleOptions in
  reachable sampleOptions st ∧
  (isRefreshingToken st = true ↔ interceptorRefreshesInFlight st = 1%nat).
Proof.
  intros st.
  assert (Hr : reachable sampleOptions st) by apply refreshStarted_reachable.
  exact (conj Hr (proj1 (flag_tracks_interceptor_refresh sampleOptions st Hr))).
Defined.

Lemma no_scheduler_without_autoRefresh_witness :
  let st := twoRequests (T:=unit) manualOptions in
  shouldRefreshToken manualOptions = false ∧
  reachable manualOptions st ∧
  timers st = [] ∧ refreshTokenTimeout st = None ∧
  (refreshesInFlight st ≤ 1)%nat.
Proof.
  intros st.
  assert (Hr : reachable manualOptions st).
  { eapply (reachable_step _ _ 2 (CallRequest 2 sampleRequestB)); [|done].
    eapply (reachable_step _ _ 1 (CallRequest 1 sampleRequestA)); [|done].
    apply reachable_useAuth. }
  destruct (no_scheduler_without_autoRefresh manualOptions st eq_refl Hr)
    as (Ht & Hv & _ & Hle).
  exact (conj eq_refl (conj Hr (conj Ht (conj Hv Hle)))).
Defined.

Lemma promises_settled_once_witness :
  let evs := [(1, CallGetUser 4);
              (2, Response 0 (Failed (Some 500)));
              (3, CallRequest 4 sampleRequestA)] in
  ∃ st : @State unit,
    run sampleOptions evs (useAuth sampleOptions 0 (Some sampleBundle))
      = Some st ∧
    (settledFor 4 st + pendingFor 4 st)%nat = 2%nat.
Proof.
  intros evs.
  destruct (run sampleOptions evs
              (useAuth (T:=unit) sampleOptions 0 (Some sampleBundle)))
    as [st|] eqn:Hrun; [|vm_compute in Hrun; discriminate].
  exists st. split; [reflexivity|].
  exact (proj1 (promises_settled_once sampleOptions 0 (Some sampleBundle)
                  evs st 4 Hrun)).
Defined.

Lemma replays_avoid_token_endpoint_witness :
  let st := refreshAnswered (T:=unit) sampleOptions in
  reachable sampleOptions st ∧ lookupInflight 3 st = Some AReplay ∧
  ∃ cfg accessToken headers,
    sent st !! 3%nat = Some cfg ∧
    cfg !! "url" ≠ Some (VStr tokenEndpoint) ∧
    cfg !! "headers" = Some (VHeaders headers) ∧
    headers !! "Authorization" = Some ("Bearer " +:+ accessToken).
Proof.
  intros st.
  assert (Hr : reachable sampleOptions st) by apply refreshAnswered_reachable.
  assert (Hf : lookupInflight 3 st = Some AReplay) by (vm_compute; reflexivity).
  exact (conj Hr (conj Hf
           (replays_avoid_token_endpoint sampleOptions st 3 Hr Hf))).
Defined.

Lemma signIn_failure_keeps_session_witness :
  let st := signingIn (T:=unit) sampleOptions in
  reachable sampleOptions st ∧ lookupInflight 0 st = Some (ASignIn 1) ∧
  isRejection (T:=unit) (Failed (Some 401)) = true ∧
  ∃ e st',
    step sampleOptions 10 (Response 0 (Failed (Some 401))) st = Some st' ∧
    st' = settle 1 (Rejected e) (removeInflight 0 st).
Proof.
  intros st.
  assert (Hr : reachable sampleOptions st) by apply signingIn_reachable.
  split; [exact Hr|]. split; [reflexivity|]. split; [reflexivity|].
  destruct (signIn_failure_keeps_session sampleOptions st 0 1
              (Failed (Some 401)) 10 Hr eq_refl eq_refl)
    as (e & st' & Hs & He & _).
  exact (ex_intro _ e (ex_intro _ st' (conj Hs He))).
Defined.

Lemma revoke_keeps_session_witness :
  let st := restoredSession (T:=unit) manualOptions in
  reachable manualOptions st ∧ oAuth st = Some sampleBundle ∧
  ∃ st',
    run manualOptions
      [(1, CallRevoke 1); (2, Response 0 (Fulfilled NoBody))] st = Some st' ∧
    sent st' = sent st ++ [revokeRequest manualOptions sampleBundle] ∧
    revokeRequest manualOptions sampleBundle !! "url"
      = Some (VStr "/oauth/revoke/access-0") ∧
    oAuth st' = Some sampleBundle.
Proof.
  intros st.
  assert (Hr : reachable manualOptions st) by apply reachable_useAuth.
  split; [exact Hr|]. split; [reflexivity|].
  destruct (revoke_keeps_session manualOptions st sampleBundle 1 NoBody 1 2
              Hr eq_refl)
    as (st' & Hrun & Hsent & Hurl & _ & _ & Ho & _).
  exact (ex_intro _ st' (conj Hrun (conj Hsent (conj Hurl Ho)))).
Defined.

Lemma signIn_then_getUser_witness :
  let st := useAuth (T:=unit) sampleOptions 0 None in
  reachable sampleOptions st ∧
  ∃ st',
    run sampleOptions
      [(1, CallSignIn 1 "ada@example.org" "pa55word");
       (2, Response 0 (Fulfilled (TokenBody sampleToken)));
       (3, CallGetUser 2);
       (4, Response 1 (Fulfilled (UserBody tt)))] st = Some st' ∧
    user st' = Some tt ∧ isAuthenticated st' = true.
Proof.
  intros st.
  assert (Hr : reachable sampleOptions st) by apply reachable_useAuth.
  split; [exact Hr|].
  destruct (signIn_then_getUser sampleOptions st 1 2 "ada@example.org"
              "pa55word" sampleToken tt 1 2 3 4 Hr)
    as (st' & Hrun & _ & _ & _ & Hu & Hi).
  exact (ex_intro _ st' (conj Hrun (conj Hu Hi))).
Defined.

Lemma token_response_after_signOut_witness :
  let st := refreshStarted (T:=unit) sampleOptions in
  let k := FromInterceptor (AxiosError (Some 401) (Some sampleRequestA))
             (ARequest 1) in
  reachable sampleOptions st ∧ lookupInflight 2 st = Some (ARefresh k) ∧
  ∃ st',
    run sampleOptions
      [(3540000, CallSignOut);
       (3540050, Response 2 (Fulfilled (TokenBody sampleToken2)))] st
      = Some st' ∧
    oAuth st' = Some (tokenBundle 3540050 sampleToken2) ∧
    user st' = None ∧ isAuthenticated st' = false.
Proof.
  intros st k.
  assert (Hr : reachable sampleOptions st) by apply refreshStarted_reachable.
  assert (Hf : lookupInflight 2 st = Some (ARefresh k))
    by (vm_compute; reflexivity).
  split; [exact Hr|]. split; [exact Hf|].
  exact (token_response_after_signOut sampleOptions st 2 (ARefresh k)
           3540000 3540050 sampleToken2 Hr Hf
           (or_intror (ex_intro _ k eq_refl))).
Defined.

Lemma rejected_refresh_leaves_timer_witness :
  let st := refreshStarted (T:=unit) sampleOptions in
  let k := FromInterceptor (AxiosError (Some 401) (Some sampleRequestA))
             (ARequest 1) in
  reachable sampleOptions st ∧ lookupInflight 2 st = Some (ARefresh k) ∧
  isRejection (T:=unit) (Failed (Some 400)) = true ∧
  timers st = [(0%nat, 3540000)] ∧
  ∃ st',
    step sampleOptions 3539995 (Response 2 (Failed (Some 400))) st = Some st' ∧
    timers st' = timers st.
Proof.
  intros st k.
  assert (Hr : reachable sampleOptions st) by apply refreshStarted_reachable.
  assert (Hf : lookupInflight 2 st = Some (ARefresh k))
    by (vm_compute; reflexivity).
  split; [exact Hr|]. split; [exact Hf|]. split; [reflexivity|].
  split; [reflexivity|].
  destruct (rejected_refresh_leaves_timer sampleOptions st 2 k
              (Failed (Some 400)) 3539995 Hr Hf eq_refl)
    as (st' & Hs & Ht & _).
  exact (ex_intro _ st' (conj Hs Ht)).
Defined.

Lemma replayed_response_is_dropped_witness :
  let cfg := userInfoRequest sampleOptions in
  let st := send cfg (AGetUser 1) (restoredSession (T:=unit) sampleOptions) in
  let err := AxiosError (Some 401) (Some cfg) in
  reachable sampleOptions st ∧ lookupInflight 0 st = Some (AGetUser 1) ∧
  sent st !! 0%nat = Some cfg ∧
  cfg !! "url" ≠ Some (VStr tokenEndpoint) ∧
  oAuth st = Some sampleBundle ∧ isRefreshingToken st = false ∧
  ∃ st',
    run sampleOptions
      [(10, Response 0 (Failed (Some 401)));
       (20, Response 1 (Fulfilled (TokenBody sampleToken2)));
       (30, Response 2 (Fulfilled (UserBody tt)))] st = Some st' ∧
    settled st' = settled st ++ [(1%nat, Rejected err)] ∧
    user st' = user st.
Proof.
  intros cfg st err.
  assert (Hr : reachable sampleOptions st).
  { apply (reachable_step _ (restoredSession sampleOptions) 5 (CallGetUser 1));
      [apply (reachable_useAuth sampleOptions 0 (Some sampleBundle))
      |reflexivity]. }
  assert (Hu : cfg !! "url" ≠ Some (VStr tokenEndpoint))
    by (vm_compute; discriminate).
  split; [exact Hr|]. do 2 (split; [reflexivity|]). split; [exact Hu|].
  do 2 (split; [reflexivity|]).
  destruct (replayed_response_is_dropped sampleOptions st 0 (AGetUser 1) 1 cfg
              sampleBundle sampleToken2 (UserBody tt) 10 20 30
              Hr eq_refl eq_refl eq_refl Hu eq_refl eq_refl)
    as (st' & Hrun & _ & Hs & Huser & _).
  exact (ex_intro _ st' (conj Hrun (conj Hs Huser))).
Defined.

Lemma queued_while_refreshing_witness :
  let st := refreshStarted (T:=unit) sampleOptions in
  let err := AxiosError (Some 401) (Some sampleRequestB) in
  reachable sampleOptions st ∧ lookupInflight 1 st = Some (ARequest 2) ∧
  promise (ARequest 2) = Some 2%nat ∧
  sent st !! 1%nat = Some sampleRequestB ∧
  refreshable err st = true ∧ isRefreshingToken st = true ∧
  ∃ st',
    step sampleOptions 3539991 (Response 1 (Failed (Some 401))) st = Some st' ∧
    failedRequestsQueue st' = failedRequestsQueue st ++ [retry err] ∧
    sent st' = sent st.
Proof.
  intros st err.
  assert (Hr : reachable sampleOptions st) by apply refreshStarted_reachable.
  assert (Hf : lookupInflight 1 st = Some (ARequest 2))
    by (vm_compute; reflexivity).
  assert (Hc : sent st !! 1%nat = Some sampleRequestB)
    by (vm_compute; reflexivity).
  assert (Href : refreshable err st = true) by (vm_compute; reflexivity).
  assert (Hflag : isRefreshingToken st = true) by (vm_compute; reflexivity).
  split; [exact Hr|]. split; [exact Hf|]. split; [reflexivity|].
  split; [exact Hc|]. split; [exact Href|]. split; [exact Hflag|].
  destruct (queued_while_refreshing sampleOptions st 1 (ARequest 2) 2
              sampleRequestB (Some 401) 3539991 Hr Hf eq_refl Hc Href Hflag)
    as (st' & Hs & Hq & _ & Hsent & _).
  exact (ex_intro _ st' (conj Hs (conj Hq Hsent))).
Defined.

Lemma refresh_replays_whole_queue_witness :
  let st := refreshStarted (T:=unit) sampleOptions in
  let err := AxiosError (Some 401) (Some sampleRequestA) in
  reachable sampleOptions st ∧
  lookupInflight 2 st = Some (ARefresh (FromInterceptor err (ARequest 1))) ∧
  ∃ st',
    step sampleOptions 3540050 (Response 2 (Fulfilled (TokenBody sampleToken2)))
      st = Some st' ∧
    sent st' = sent st ++ immediateRefresh sampleOptions 3540050 sampleToken2
               ++ map (λ request, request (access_token sampleToken2))
                    (failedRequestsQueue st) ∧
    failedRequestsQueue st' = [] ∧ isRefreshingToken st' = false.
Proof.
  intros st err.
  assert (Hr : reachable sampleOptions st) by apply refreshStarted_reachable.
  assert (Hf : lookupInflight 2 st
               = Some (ARefresh (FromInterceptor err (ARequest 1))))
    by (vm_compute; reflexivity).
  split; [exact Hr|]. split; [exact Hf|].
  destruct (refresh_replays_whole_queue sampleOptions st 2 err (ARequest 1)
              3540050 sampleToken2 Hr Hf)
    as (st' & Hs & Hsent & _ & _ & Hq & Hfl).
  exact (ex_intro _ st' (conj Hs (conj Hsent (conj Hq Hfl)))).
Defined.

(** ** Closed instances for the earlier revision *)

Lemma legacy_every_401_refreshes_witness :
  let st := Legacy.twoRequests in
  let o := Legacy.sampleBundle in
  Legacy.oAuth st = Some o ∧
  Legacy.lookupInflight 0 st = Some (Legacy.AGetUser 1) ∧
  Legacy.lookupInflight 1 st = Some (Legacy.ARequest 2) ∧
  Legacy.sent st !! 0%nat = Some Legacy.userRequest ∧
  Legacy.sent st !! 1%nat = Some Legacy.sampleRequest ∧
  ∃ st',
    Legacy.run Legacy.sampleOptions
      [(10, Legacy.Response 0 (Legacy.Failed (Some 401)));
       (11, Legacy.Response 1 (Legacy.Failed (Some 401)))] st = Some st' ∧
    Legacy.sent st' =
      Legacy.sent st ++ [Legacy.refreshGrant Legacy.sampleOptions (Some o);
                         Legacy.refreshGrant Legacy.sampleOptions (Some o)] ∧
    Legacy.settled st' = Legacy.settled st.
Proof.
  intros st o. do 5 (split; [reflexivity|]).
  destruct (legacy_every_401_refreshes Legacy.sampleOptions st o 0 1
              (Legacy.AGetUser 1) (Legacy.ARequest 2)
              Legacy.userRequest Legacy.sampleRequest 10 11
              eq_refl eq_refl eq_refl (Nat.neq_0_succ 0) eq_refl eq_refl)
    as (st' & Hrun & Hsent & _ & Hset & _).
  exact (ex_intro _ st' (conj Hrun (conj Hsent Hset))).
Defined.

Lemma legacy_refresh_answered_replays_witness :
  let st := Legacy.refreshing in
  let err := Legacy.AxiosError (Some 401) (Some Legacy.userRequest) in
  let cfg := Legacy.refreshGrant Legacy.sampleOptions
               (Some Legacy.sampleBundle) in
  Legacy.lookupInflight 2 st
    = Some (Legacy.ARefresh (Legacy.FromInterceptor err (Legacy.AGetUser 1))) ∧
  Legacy.sent st !! 2%nat = Some cfg ∧
  ∃ st' scheduled,
    Legacy.step Legacy.sampleOptions 50
      (Legacy.Response 2 (Legacy.Fulfilled (Legacy.TokenBody Legacy.sampleData)))
      st = Some st' ∧
    Legacy.oAuth st' = Some (Legacy.tokenBundle 50 Legacy.sampleData) ∧
    Legacy.sent st' =
      Legacy.sent st ++ scheduled ++ [Legacy.retry err "access-1"].
Proof.
  intros st err cfg.
  assert (Hf : Legacy.lookupInflight 2 st
               = Some (Legacy.ARefresh
                         (Legacy.FromInterceptor err (Legacy.AGetUser 1))))
    by (vm_compute; reflexivity).
  assert (Hl : Legacy.sent st !! 2%nat = Some cfg) by (vm_compute; reflexivity).
  split; [exact Hf|]. split; [exact Hl|].
  destruct (legacy_refresh_answered_replays Legacy.sampleOptions st 2 err
              (Legacy.AGetUser 1) cfg 50 Legacy.sampleData "url" Hf Hl)
    as (st' & scheduled & Hs & Ho & Hsent & _).
  exact (ex_intro _ st' (ex_intro _ scheduled (conj Hs (conj Ho Hsent)))).
Defined.

Lemma legacy_replay_resolves_original_witness :
  let st := Legacy.replaying in
  let err := Legacy.AxiosError (Some 401) (Some Legacy.userRequest) in
  Legacy.lookupInflight 3 st
    = Some (Legacy.AReplay err (Legacy.AGetUser 1)) ∧
  Legacy.sent st !! 3%nat = Some (Legacy.retry err "access-1") ∧
  ∃ st',
    Legacy.step Legacy.sampleOptions 60
      (Legacy.Response 3 (Legacy.Fulfilled (Legacy.UserBody tt))) st
      = Some st' ∧
    Legacy.user st' = Some tt ∧ Legacy.isAuthenticated st' = true ∧
    Legacy.settled st'
      = Legacy.settled st ++ [(1%nat, Legacy.Resolved (Legacy.UserBody tt))].
Proof.
  intros st err.
  assert (Hf : Legacy.lookupInflight 3 st
               = Some (Legacy.AReplay err (Legacy.AGetUser 1)))
    by (vm_compute; reflexivity).
  assert (Hl : Legacy.sent st !! 3%nat = Some (Legacy.retry err "access-1"))
    by (vm_compute; reflexivity).
  split; [exact Hf|]. split; [exact Hl|].
  destruct (proj2 (legacy_replay_resolves_original Legacy.sampleOptions st 3
                     err (Legacy.AGetUser 1) _ 60 (Legacy.UserBody tt) Hf Hl))
    as (st' & Hs & Hu & Hi & Hset & _).
  exact (ex_intro _ st' (conj Hs (conj Hu (conj Hi Hset)))).
Defined.

Lemma legacy_refresh_failure_witness :
  let st := Legacy.refreshing in
  let err := Legacy.AxiosError (Some 401) (Some Legacy.userRequest) in
  let cfg := Legacy.refreshGrant Legacy.sampleOptions
               (Some Legacy.sampleBundle) in
  Legacy.lookupInflight 2 st
    = Some (Legacy.ARefresh (Legacy.FromInterceptor err (Legacy.AGetUser 1))) ∧
  Legacy.promise (Legacy.AGetUser 1) = Some 1%nat ∧
  Legacy.sent st !! 2%nat = Some cfg ∧
  Some 400 ≠ Some 401 ∧
  ∃ st',
    Legacy.step Legacy.sampleOptions 50
      (Legacy.Response 2 (Legacy.Failed (Some 400))) st = Some st' ∧
    Legacy.oAuth st' = None ∧
    Legacy.settled st' = Legacy.settled st ++ [(1%nat, Legacy.Rejected err)] ∧
    Legacy.timers st' = [(0%nat, 3540000)].
Proof.
  intros st err cfg.
  assert (Hf : Legacy.lookupInflight 2 st
               = Some (Legacy.ARefresh
                         (Legacy.FromInterceptor err (Legacy.AGetUser 1))))
    by (vm_compute; reflexivity).
  assert (Hl : Legacy.sent st !! 2%nat = Some cfg) by (vm_compute; reflexivity).
  assert (Hs : Some 400 ≠ Some 401) by discriminate.
  split; [exact Hf|]. split; [reflexivity|]. split; [exact Hl|].
  split; [exact Hs|].
  destruct (legacy_refresh_failure Legacy.sampleOptions st 2 err
              (Legacy.AGetUser 1) 1 cfg (Some 400) 50 Hf eq_refl Hl Hs)
    as (st' & Hstep & Ho & Hset & _ & _ & Ht & _).
  exact (ex_intro _ st' (conj Hstep (conj Ho (conj Hset Ht)))).
Defined.

Lemma legacy_no_session_witness :
  let st := Legacy.useAuth (T:=unit) Legacy.sampleOptions 0 None in
  Legacy.oAuth st = None ∧
  Legacy.getUser 1 st = (st, Some Legacy.notLoggedIn) ∧
  Legacy.sent (Legacy.refreshToken Legacy.sampleOptions Legacy.FromTimer st)
    = [Legacy.refreshGrant Legacy.sampleOptions None].
Proof.
  intros st. split; [reflexivity|].
  destruct (legacy_no_session Legacy.sampleOptions st 1 Legacy.FromTimer
              (Legacy.ARequest 1) None None eq_refl) as (H1 & _ & H3 & _).
  split; [exact H1|]. rewrite H3. reflexivity.
Defined.
